(** * folded_to_grafana: folded stacks to Grafana's nested set model

    A shallow embedding of [grafana/folded_to_grafana.py] and the proofs of
    the properties its specification states about the aggregation core:
    [build_trie], [calculate_totals], [trie_to_nested_set] and
    [convert_folded_to_grafana].

    Modelling conventions.
    - A Python [str] is a [string]; a character is a code point below 256.
    - A Python number is an [int] (unbounded, [Z]) or a [float] (IEEE 754
      binary64, the Standard Library's [spec_float] with round to nearest
      even).  [int(...)] is modelled without the interpreter's optional
      limit on the number of digits.
    - Exceptions that escape the functions are values of [exn]; a function
      that can raise returns a [result].
    - [dict] is insertion ordered: an association list, new keys at the end.
    - The interpreter's recursion limit is not modelled.
    - [print] is modelled by the lines written: [output_csv] returns them.
      [output_json], [output_json_simple] and [main] (the text of
      [json.dumps], the command line) are not modelled. *)

From Stdlib Require Import Bool Ascii String List ZArith QArith Lia.
From Stdlib Require Import DecimalString.
From Stdlib Require Import Sorting.Sorted Sorting.Permutation.
From Stdlib Require Import Floats.SpecFloat.
Import ListNotations.

Open Scope string_scope.
Open Scope Z_scope.

(** ** Exceptions *)

Inductive exn : Type :=
| ValueError
| OverflowError.

Inductive result (A : Type) : Type :=
| Ok (a : A)
| Raise (e : exn).

Arguments Ok {A} a.
Arguments Raise {A} e.

Definition bind {A B : Type} (m : result A) (k : A -> result B) : result B :=
  match m with
  | Ok a => k a
  | Raise e => Raise e
  end.

Notation "x <- m ;; k" := (bind m (fun x => k))
  (at level 61, m at next level, right associativity).
Notation "' p <- m ;; k" := (bind m (fun x => match x with p => k end))
  (at level 61, p pattern, m at next level, right associativity).

(** ** Python strings *)

Module PyStr.

Definition code (c : ascii) : N := N_of_ascii c.

(** [str.isspace] on one character, for code points below 256: this is
    the set that [str.strip()] removes. *)
Definition isspace (c : ascii) : bool :=
  let n := code c in
  ((9 <=? n) && (n <=? 13) || (28 <=? n) && (n <=? 32)
   || (n =? 133) || (n =? 160))%N.

(** The white space that [int()] and [float()] skip at both ends of
    their argument. *)
Definition isspace_num (c : ascii) : bool :=
  let n := code c in
  ((9 <=? n) && (n <=? 13) || (n =? 32) || (n =? 133) || (n =? 160))%N.

Definition isdigit (c : ascii) : bool :=
  let n := code c in ((48 <=? n) && (n <=? 57))%N.

Definition digit (c : ascii) : Z := Z.of_N (code c) - 48.

Definition lower (c : ascii) : ascii :=
  let n := code c in
  if ((65 <=? n) && (n <=? 90))%N then ascii_of_N (n + 32) else c.

Fixpoint lowercase (s : string) : string :=
  match s with
  | EmptyString => EmptyString
  | String c s' => String (lower c) (lowercase s')
  end.

Fixpoint lstrip_by (p : ascii -> bool) (s : string) : string :=
  match s with
  | EmptyString => EmptyString
  | String c s' => if p c then lstrip_by p s' else s
  end.

Fixpoint rstrip_by (p : ascii -> bool) (s : string) : string :=
  match s with
  | EmptyString => EmptyString
  | String c s' =>
      match rstrip_by p s' with
      | EmptyString => if p c then EmptyString else String c EmptyString
      | t => String c t
      end
  end.

(** [s.strip()] *)
Definition strip (s : string) : string := rstrip_by isspace (lstrip_by isspace s).

(** [s.startswith(p)] *)
Definition startswith (s p : string) : bool := String.prefix p s.

(** [sub in s] *)
Fixpoint contains (s sub : string) : bool :=
  String.prefix sub s ||
  match s with
  | EmptyString => false
  | String _ s' => contains s' sub
  end.

(** [s.rsplit(c, 1)] for a one character separator [c]: the list has two
    elements, the text before and after the last [c], or one, [s], when
    [c] does not occur. *)
Fixpoint rsplit1 (s : string) (c : ascii) : list string :=
  match s with
  | EmptyString => [EmptyString]
  | String a s' =>
      match rsplit1 s' c with
      | [before; after] => [String a before; after]
      | _ => if Ascii.eqb a c then [EmptyString; s'] else [s]
      end
  end.

(** The loop of [s.split(sep)] for a non-empty [sep]: [cur] is the piece
    being read and [skip] the number of characters of a separator just
    matched that are still to pass. *)
Fixpoint split_loop (sep s cur : string) (skip : nat) : list string :=
  match s with
  | EmptyString => [cur]
  | String c s' =>
      match skip with
      | S k => split_loop sep s' cur k
      | O =>
          if String.prefix sep s
          then cur :: split_loop sep s' EmptyString (String.length sep - 1)
          else split_loop sep s' (cur ++ String c EmptyString) 0
      end
  end.

(** [s.split(sep)]: [ValueError] on the empty separator. *)
Definition split (s sep : string) : result (list string) :=
  match sep with
  | EmptyString => Raise ValueError
  | _ => Ok (split_loop sep s EmptyString 0)
  end.

(** The truth value of a string: [if s]. *)
Definition nonempty (s : string) : bool :=
  match s with
  | EmptyString => false
  | _ => true
  end.

End PyStr.

(** ** Python numbers *)

Module PyNum.

Definition prec : Z := 53.
Definition emax : Z := 1024.

Inductive pynum : Type :=
| PyInt (z : Z)
| PyFloat (f : spec_float).

(** *** Conversions to binary64 *)

(** The float nearest to the integer [z]; [OverflowError] when it is out
    of range, as in [float(z)] and in mixed arithmetic. *)
Definition float_of_int (z : Z) : result spec_float :=
  match binary_normalize prec emax z 0 false with
  | S754_infinity _ => Raise OverflowError
  | f => Ok f
  end.

(** The float nearest to [(-1)^s * m * 10^x], for the decimal literal that
    [float()] has read. *)
Definition float_of_decimal (s : bool) (m : Z) (x : Z) : spec_float :=
  match m with
  | Zpos p =>
      if 0 <=? x
      then binary_round prec emax s (Z.to_pos (Zpos p * 10 ^ x)) 0
      else
        let '(q, e, l) :=
          SFdiv_core_binary prec emax (Zpos p) 0 (10 ^ (- x)) 0 in
        binary_round_aux prec emax s q e l
  | _ => S754_zero s
  end.

(** *** Arithmetic *)

(** [a + b]: an [int] meeting a [float] is converted first. *)
Definition py_add (a b : pynum) : result pynum :=
  match a, b with
  | PyInt x, PyInt y => Ok (PyInt (x + y))
  | PyFloat f, PyFloat g => Ok (PyFloat (SFadd prec emax f g))
  | PyInt x, PyFloat g =>
      f <- float_of_int x ;; Ok (PyFloat (SFadd prec emax f g))
  | PyFloat f, PyInt y =>
      g <- float_of_int y ;; Ok (PyFloat (SFadd prec emax f g))
  end.

(** *** Comparison

    Python compares numbers by their exact values, also an [int] with a
    [float]; every comparison with a NaN is false. *)

Inductive xreal : Type :=
| XNaN
| XNegInf
| XFin (q : Q)
| XPosInf.

Definition float_exact (f : spec_float) : xreal :=
  match f with
  | S754_nan => XNaN
  | S754_infinity s => if s then XNegInf else XPosInf
  | S754_zero _ => XFin 0
  | S754_finite s m e =>
      XFin (Qmake (cond_Zopp s (Zpos m) * 2 ^ Z.max e 0)
                  (Z.to_pos (2 ^ Z.max (- e) 0)))
  end.

Definition exact (a : pynum) : xreal :=
  match a with
  | PyInt z => XFin (inject_Z z)
  | PyFloat f => float_exact f
  end.

Definition xlt (x y : xreal) : bool :=
  match x, y with
  | XNaN, _ | _, XNaN => false
  | _, XNegInf => false
  | XNegInf, _ => true
  | XPosInf, _ => false
  | _, XPosInf => true
  | XFin p, XFin q => match Qcompare p q with Lt => true | _ => false end
  end.

Definition xeq (x y : xreal) : bool :=
  match x, y with
  | XNegInf, XNegInf => true
  | XPosInf, XPosInf => true
  | XFin p, XFin q => match Qcompare p q with Eq => true | _ => false end
  | _, _ => false
  end.

(** [a < b], [a == b], [a <= b] *)
Definition py_lt (a b : pynum) : bool := xlt (exact a) (exact b).
Definition py_eq (a b : pynum) : bool := xeq (exact a) (exact b).
Definition xle (x y : xreal) : bool := xlt x y || xeq x y.
Definition py_le (a b : pynum) : bool := xle (exact a) (exact b).

Definition is_nan (a : pynum) : bool :=
  match a with
  | PyFloat S754_nan => true
  | _ => false
  end.

Definition is_int (a : pynum) : bool :=
  match a with
  | PyInt _ => true
  | PyFloat _ => false
  end.

(** *** [int(s)] for a string [s], base ten *)

(** Digits with single underscores between them; [prev] tells whether
    the character before was a digit. *)
Fixpoint digits_value (s : string) (acc : Z) (prev : bool) : option Z :=
  match s with
  | EmptyString => if prev then Some acc else None
  | String c s' =>
      if PyStr.isdigit c then digits_value s' (10 * acc + PyStr.digit c) true
      else if Ascii.eqb c "_" then
             if prev then digits_value s' acc false else None
           else None
  end.

Definition split_sign (s : string) : bool * string :=
  match s with
  | String "-" r => (true, r)
  | String "+" r => (false, r)
  | _ => (false, s)
  end.

Definition strip_num (s : string) : string :=
  PyStr.rstrip_by PyStr.isspace_num (PyStr.lstrip_by PyStr.isspace_num s).

(** [None] stands for the [ValueError] that the caller catches. *)
Definition py_int (s : string) : option Z :=
  let '(neg, body) := split_sign (strip_num s) in
  match digits_value body 0 false with
  | Some n => Some (if neg then - n else n)
  | None => None
  end.

(** *** [float(s)] for a string [s] *)

(** An underscore must stand between two digits; the underscores are
    removed before the literal is read. *)
Fixpoint drop_underscores (s : string) (prev : ascii) : option string :=
  match s with
  | EmptyString => if Ascii.eqb prev "_" then None else Some EmptyString
  | String c s' =>
      if Ascii.eqb c "_" then
        if PyStr.isdigit prev then drop_underscores s' c else None
      else if Ascii.eqb prev "_" && negb (PyStr.isdigit c) then None
           else option_map (String c) (drop_underscores s' c)
  end.

(** The longest run of digits at the head of [s]: its value on top of
    [acc], its length on top of [n], and the rest of [s]. *)
Fixpoint take_digits (s : string) (acc : Z) (n : nat) : Z * nat * string :=
  match s with
  | String c s' =>
      if PyStr.isdigit c
      then take_digits s' (10 * acc + PyStr.digit c) (S n)
      else (acc, n, s)
  | EmptyString => (acc, n, s)
  end.

(** A decimal literal [digits [. digits] [e [sign] digits]] with a digit
    before or after the point: its digits as an integer and the power
    of ten that scales it. *)
Definition parse_decimal (r : string) : option (Z * Z) :=
  let '(ip, ni, r1) := take_digits r 0 0 in
  let '(m, nf, r2) :=
    match r1 with
    | String "." r' => take_digits r' ip 0
    | _ => (ip, O, r1)
    end in
  if (ni + nf =? 0)%nat then None
  else
    match r2 with
    | EmptyString => Some (m, - Z.of_nat nf)
    | String c r3 =>
        if Ascii.eqb (PyStr.lower c) "e" then
          let '(eneg, r4) := split_sign r3 in
          let '(ev, ne, r5) := take_digits r4 0 0 in
          if (ne =? 0)%nat then None
          else
            match r5 with
            | EmptyString =>
                Some (m, (if eneg then - ev else ev) - Z.of_nat nf)
            | _ => None
            end
        else None
    end.

Definition py_float (s : string) : option spec_float :=
  match drop_underscores s "000" with
  | None => None
  | Some t =>
      let '(neg, r) := split_sign (strip_num t) in
      let w := PyStr.lowercase r in
      if String.eqb w "inf" || String.eqb w "infinity"
      then Some (S754_infinity neg)
      else if String.eqb w "nan" then Some S754_nan
      else
        match parse_decimal r with
        | Some (m, x) => Some (float_of_decimal neg m x)
        | None => None
        end
  end.

End PyNum.

Import PyNum.

(** ** Python dictionaries keyed by strings *)

Section Dict.
Context {V : Type}.

(** [d.get(k)]; [k in d] is [dict_get d k <> None]. *)
Fixpoint dict_get (d : list (string * V)) (k : string) : option V :=
  match d with
  | [] => None
  | (k', v) :: d' => if String.eqb k' k then Some v else dict_get d' k
  end.

(** [d[k] = v]: a key already present keeps its place, a new key goes to
    the end. *)
Fixpoint dict_set (d : list (string * V)) (k : string) (v : V)
  : list (string * V) :=
  match d with
  | [] => [(k, v)]
  | (k', v') :: d' =>
      if String.eqb k' k then (k', v) :: d' else (k', v') :: dict_set d' k v
  end.

(** [d.values()] *)
Definition dict_values (d : list (string * V)) : list V := map snd d.

Definition dict_keys (d : list (string * V)) : list string := map fst d.
End Dict.

(** ** [sorted(l, key=key, reverse=True)]

    Python's sort is stable, also with [reverse=True]; it compares keys
    with [<] only.  It is modelled by a stable insertion sort.  When no key
    is a NaN, [<] is a strict weak order and every stable sort returns this
    same list.  With a NaN among the keys the list that CPython returns
    depends on its merge strategy and need not be this one, nor keep keys
    that are equal in their order; every statement about the order of
    siblings below is for keys without NaN. *)

Section Sorted.
Context {A : Type} (key : A -> pynum).

Fixpoint insert_desc (x : A) (l : list A) : list A :=
  match l with
  | [] => [x]
  | y :: l' =>
      if py_lt (key x) (key y) then y :: insert_desc x l' else x :: l
  end.

Definition sorted_desc (l : list A) : list A := fold_right insert_desc [] l.

(** [b]'s key is at most [a]'s. *)
Definition ge_key (a b : A) : Prop := py_le (key b) (key a) = true.
End Sorted.

(** ** The trie *)

#[local] Unset Elimination Schemes.

(** [class TrieNode] *)
Inductive TrieNode : Type :=
| mkTrieNode (name : string) (children : list (string * TrieNode))
             (self_value total_value : pynum).

#[local] Set Elimination Schemes.

Definition name (n : TrieNode) : string :=
  match n with mkTrieNode nm _ _ _ => nm end.
Definition children (n : TrieNode) : list (string * TrieNode) :=
  match n with mkTrieNode _ cs _ _ => cs end.
Definition self_value (n : TrieNode) : pynum :=
  match n with mkTrieNode _ _ sv _ => sv end.
Definition total_value (n : TrieNode) : pynum :=
  match n with mkTrieNode _ _ _ tv => tv end.

(** [TrieNode(name)] *)
Definition new_node (nm : string) : TrieNode :=
  mkTrieNode nm [] (PyInt 0) (PyInt 0).

(** ** [build_trie] *)

(** [int(count_str)], and [float(count_str)] when that raises. *)
Definition parse_count (count_str : string) : option pynum :=
  match py_int count_str with
  | Some z => Some (PyInt z)
  | None =>
      match py_float count_str with
      | Some f => Some (PyFloat f)
      | None => None
      end
  end.

(** Lines 36 to 53 of the loop body: the trimmed line is split at its last
    space into [stack_str] and the count; [None] is [continue]. *)
Definition parse_line (line : string) : option (string * pynum) :=
  let line := PyStr.strip line in
  if negb (PyStr.nonempty line) || PyStr.startswith line "#" then None
  else
    match PyStr.rsplit1 line " " with
    | [stack_str; count_str] =>
        match parse_count count_str with
        | Some count => Some (stack_str, count)
        | None => None
        end
    | _ => None
    end.

(** Lines 56 and 57: the value of the variable [separator] after the test
    on [stack_str]. *)
Definition next_separator (separator stack_str : string) : string :=
  if PyStr.contains stack_str "/" && negb (PyStr.contains stack_str ";")
  then "/" else separator.

(** Line 59: [[s for s in stack_str.split(separator) if s]] *)
Definition frames (stack_str separator : string) : result (list string) :=
  parts <- PyStr.split stack_str separator ;;
  Ok (filter PyStr.nonempty parts).

(** Lines 62 to 69, the walk of one stack from [node]: a child is looked
    up or created for each frame, and [count] is added to the self value
    of the node the walk ends in. *)
Fixpoint add_stack (node : TrieNode) (stack : list string) (count : pynum)
  : result TrieNode :=
  match stack with
  | [] =>
      s <- py_add (self_value node) count ;;
      Ok (mkTrieNode (name node) (children node) s (total_value node))
  | frame :: rest =>
      let child :=
        match dict_get (children node) frame with
        | Some c => c
        | None => new_node frame
        end in
      child' <- add_stack child rest count ;;
      Ok (mkTrieNode (name node) (dict_set (children node) frame child')
                     (self_value node) (total_value node))
  end.

(** What one turn of the loop does: [continue], or reach the end of the
    body with the tree and the variable [separator] as they are then, or
    raise. *)
Inductive outcome : Type :=
| Skip
| Done (root : TrieNode) (separator : string)
| Fail (e : exn).

(** The body of the [for] loop of [build_trie] (lines 36 to 69); the
    specification calls it insertLine. *)
Definition insert_line (root : TrieNode) (separator line : string) : outcome :=
  match parse_line line with
  | None => Skip
  | Some (stack_str, count) =>
      let separator := next_separator separator stack_str in
      match frames stack_str separator with
      | Raise e => Fail e
      | Ok stack =>
          match add_stack root stack count with
          | Raise e => Fail e
          | Ok root' => Done root' separator
          end
      end
  end.

Fixpoint build_loop (lines : list string) (root : TrieNode)
  (separator : string) : result TrieNode :=
  match lines with
  | [] => Ok root
  | line :: rest =>
      match insert_line root separator line with
      | Skip => build_loop rest root separator
      | Done root' separator' => build_loop rest root' separator'
      | Fail e => Raise e
      end
  end.

Definition build_trie (folded_lines : list string) (separator : string)
  : result TrieNode :=
  build_loop folded_lines (new_node "total") separator.

(** ** [calculate_totals] *)

Section ChildrenLoop.
Variable calculate : TrieNode -> result TrieNode.

(** The [for child in node.children.values()] loop: the children with
    their totals written, and the running [total]. *)
Fixpoint children_loop (cs : list (string * TrieNode)) (total : pynum)
  : result (list (string * TrieNode) * pynum) :=
  match cs with
  | [] => Ok ([], total)
  | (k, child) :: rest =>
      child' <- calculate child ;;
      total' <- py_add total (total_value child') ;;
      ' (rest', t) <- children_loop rest total' ;;
      Ok ((k, child') :: rest', t)
  end.
End ChildrenLoop.

Fixpoint calculate_totals (node : TrieNode) : result TrieNode :=
  match node with
  | mkTrieNode nm cs sv _ =>
      ' (cs', total) <- children_loop calculate_totals cs sv ;;
      Ok (mkTrieNode nm cs' sv total)
  end.

(** ** [trie_to_nested_set] *)

Record Row : Type := mkRow {
  level : nat;
  label : string;
  value : pynum;
  self : pynum
}.

Definition row_of (lvl : nat) (n : TrieNode) : Row :=
  mkRow lvl (name n) (total_value n) (self_value n).

(** The rows of [node] and of its subtree, in the order in which they are
    appended to [result].  Each child is paired with its own traversal
    before the sort, so that the recursion is on the children of [node];
    [trie_to_nested_set_eq] below gives the equation in the source's
    form. *)
Fixpoint trie_to_nested_set (node : TrieNode) (lvl : nat) : list Row :=
  match node with
  | mkTrieNode nm cs sv tv =>
      let visits :=
        map (fun kc => (snd kc, trie_to_nested_set (snd kc))) cs in
      let sorted_children :=
        sorted_desc (fun v => total_value (fst v)) visits in
      mkRow lvl nm tv sv
        :: flat_map (fun v => snd v (S lvl)) sorted_children
  end.

(** ** [convert_folded_to_grafana] *)

(** Lines 110 and 111: the tree with its totals. *)
Definition build_and_total (input_lines : list string) (separator : string)
  : result TrieNode :=
  root <- build_trie input_lines separator ;;
  calculate_totals root.

Definition convert_folded_to_grafana (input_lines : list string)
  (separator : string) : result (list Row) :=
  root <- build_and_total input_lines separator ;;
  Ok (trie_to_nested_set root 0).

(** ** Notions used in the statements *)

(** [node_at d n t]: [n] is a node of the tree [t], [d] levels below the
    root of [t]; [d] is the number of ancestors that [n] has in [t]. *)
Inductive node_at : nat -> TrieNode -> TrieNode -> Prop :=
| node_here (t : TrieNode) : node_at 0 t t
| node_below (d : nat) (n c t : TrieNode) :
    In c (dict_values (children t)) -> node_at d n c -> node_at (S d) n t.

(** The node that the path [stack] leads to from [node]. *)
Fixpoint find_node (node : TrieNode) (stack : list string) : option TrieNode :=
  match stack with
  | [] => Some node
  | frame :: rest =>
      match dict_get (children node) frame with
      | Some c => find_node c rest
      | None => None
      end
  end.

(** The self value at the end of the path [stack]; [0], the value a node
    is created with, when there is no such node yet. *)
Definition self_at (node : TrieNode) (stack : list string) : pynum :=
  match find_node node stack with
  | Some n => self_value n
  | None => PyInt 0
  end.

(** [total + x1 + ... + xn], added from left to right. *)
Fixpoint add_all (total : pynum) (l : list pynum) : result pynum :=
  match l with
  | [] => Ok total
  | x :: l' => t <- py_add total x ;; add_all t l'
  end.

(** [sum(l)] *)
Definition py_sum (l : list pynum) : result pynum := add_all (PyInt 0) l.

Definition child_totals (n : TrieNode) : list pynum :=
  map total_value (dict_values (children n)).

(** The counts of the lines that are not skipped, in input order. *)
Definition counts (lines : list string) : list pynum :=
  flat_map (fun l => match parse_line l with
                     | Some (_, c) => [c]
                     | None => []
                     end) lines.

(** No count of the input is a [float]. *)
Definition int_counts (lines : list string) : Prop :=
  Forall (fun c => is_int c = true) (counts lines).

Definition int_of (a : pynum) : Z :=
  match a with
  | PyInt z => z
  | PyFloat _ => 0
  end.

Definition zsum (l : list Z) : Z := fold_right Z.add 0 l.

(** The self values of a tree are all of type [int]. *)
Fixpoint int_tree (n : TrieNode) : bool :=
  match n with
  | mkTrieNode _ cs sv _ =>
      is_int sv && forallb (fun kc => int_tree (snd kc)) cs
  end.

(** The sum of the self values of a tree of [int]s. *)
Fixpoint self_sum (n : TrieNode) : Z :=
  match n with
  | mkTrieNode _ cs sv _ =>
      int_of sv + zsum (map (fun kc => self_sum (snd kc)) cs)
  end.

(** The tree without its numbers: names and children in their order. *)
Fixpoint shape (n : TrieNode) : TrieNode :=
  match n with
  | mkTrieNode nm cs _ _ =>
      mkTrieNode nm (map (fun kc => (fst kc, shape (snd kc))) cs)
                 (PyInt 0) (PyInt 0)
  end.

Definition chars (s : string) : list ascii := list_ascii_of_string s.

(** The skip conditions in the words of the specification: the trimmed
    line is empty, or begins with [#], or has no space, or the token after
    its last space is neither an integer nor a floating-point number. *)
Definition skip_condition (line : string) : Prop :=
  let t := PyStr.strip line in
  t = ""
  \/ (exists r, t = String "#" r)
  \/ ~ In " "%char (chars t)
  \/ (exists stack_part token,
        t = stack_part ++ String " " token
        /\ ~ In " "%char (chars token)
        /\ py_int token = None /\ py_float token = None).

(** Conservation as the specification tests it:
    [totalCount == selfCount + sum(child.totalCount for child in children)] *)
Definition conservation (n : TrieNode) : Prop :=
  exists s t, py_sum (child_totals n) = Ok s
              /\ py_add (self_value n) s = Ok t
              /\ py_eq (total_value n) t = true.

(** Conservation over the integers. *)
Definition conservation_int (n : TrieNode) : Prop :=
  exists z zs, self_value n = PyInt z
               /\ child_totals n = map PyInt zs
               /\ total_value n = PyInt (z + zsum zs).

(** Root completeness as the specification states it: the value of the
    first row is the sum of the counts of the valid lines. *)
Definition root_complete (lines : list string) (separator : string) : Prop :=
  forall rows, convert_folded_to_grafana lines separator = Ok rows ->
    exists r rest s, rows = r :: rest
                     /\ py_sum (counts lines) = Ok s
                     /\ py_eq (value r) s = true.

(** No child of [n] has a NaN for its total. *)
Definition no_nan_child (n : TrieNode) : Prop :=
  Forall (fun c => is_nan (total_value c) = false) (dict_values (children n)).

(** The rows of the children of the node whose rows are [rows], the node
    being at level [lvl]. *)
Definition child_rows (lvl : nat) (rows : list Row) : list Row :=
  filter (fun r => Nat.eqb (level r) (S lvl)) (tl rows).

(** Each row is at most one level deeper than the row before it; [prev]
    is the level before the first row. *)
Fixpoint steps_ok (prev : nat) (rows : list Row) : Prop :=
  match rows with
  | [] => True
  | r :: rest => (level r <= S prev)%nat /\ steps_ok (level r) rest
  end.

(** Sibling order as the specification states it: the rows of the
    children of [n], a node at level [d], are in non-increasing order of
    value. *)
Definition siblings_non_increasing (d : nat) (n : TrieNode) : Prop :=
  StronglySorted (fun r1 r2 => py_le (value r2) (value r1) = true)
                 (child_rows d (trie_to_nested_set n d)).

(** The rows of the children of [n] are the children sorted; among them
    the rows of equal value are in the order of the dictionary, which is
    the order in which the children were created. *)
Definition siblings_stable (d : nat) (n : TrieNode) : Prop :=
  child_rows d (trie_to_nested_set n d)
  = map (row_of (S d)) (sorted_desc total_value (dict_values (children n)))
  /\ forall v,
       filter (fun r => py_eq (value r) v)
              (child_rows d (trie_to_nested_set n d))
       = map (row_of (S d))
             (filter (fun c => py_eq (total_value c) v)
                     (dict_values (children n))).

(** [rows] is a nested set of the tree [root]: the first row is the
    root's, at level 0; the rows are those of the nodes, each at the level
    that is the number of its ancestors; a row at level [S k] comes after
    the row, at level [k], of its node's parent, with only deeper rows in
    between; and no row is more than one level deeper than the row before
    it. *)
Definition level_consistent (root : TrieNode) (rows : list Row) : Prop :=
  (exists rest, rows = row_of 0 root :: rest)
  /\ (forall r, In r rows <-> exists d n, node_at d n root /\ r = row_of d n)
  /\ (forall pre r post k,
         rows = (pre ++ r :: post)%list -> level r = S k ->
         exists pre1 pre2 p c,
           pre = (pre1 ++ row_of k p :: pre2)%list
           /\ r = row_of (S k) c
           /\ node_at k p root
           /\ In c (dict_values (children p))
           /\ Forall (fun x => (S k <= level x)%nat) pre2)
  /\ (forall pre r1 r2 post,
         rows = (pre ++ r1 :: r2 :: post)%list ->
         (level r2 <= S (level r1))%nat).

(** ** The stacks of an input *)

(** The stack and the count of every line that is not skipped, as the loop
    of [build_trie] computes them (lines 36 to 59): the variable
    [separator] is carried from one line to the next. *)
Fixpoint line_stacks (lines : list string) (separator : string)
  : result (list (list string * pynum)) :=
  match lines with
  | [] => Ok []
  | line :: rest =>
      match parse_line line with
      | None => line_stacks rest separator
      | Some (stack_str, count) =>
          let separator := next_separator separator stack_str in
          stack <- frames stack_str separator ;;
          tr <- line_stacks rest separator ;;
          Ok ((stack, count) :: tr)
      end
  end.

(** The stacks of the lines when every line is split at the same
    [separator]. *)
Fixpoint plain_stacks (lines : list string) (separator : string)
  : result (list (list string * pynum)) :=
  match lines with
  | [] => Ok []
  | line :: rest =>
      match parse_line line with
      | None => plain_stacks rest separator
      | Some (stack_str, count) =>
          stack <- frames stack_str separator ;;
          tr <- plain_stacks rest separator ;;
          Ok ((stack, count) :: tr)
      end
  end.

(** The test of line 56 on the stack part of a line; [false] on a line
    that is skipped. *)
Definition slash_detected (line : string) : bool :=
  match parse_line line with
  | Some (stack_str, _) =>
      PyStr.contains stack_str "/" && negb (PyStr.contains stack_str ";")
  | None => false
  end.

Fixpoint stack_eqb (p q : list string) : bool :=
  match p, q with
  | [], [] => true
  | a :: p', b :: q' => String.eqb a b && stack_eqb p' q'
  | _, _ => false
  end.

(** [p] is the beginning of [q]. *)
Fixpoint is_prefix (p q : list string) : bool :=
  match p, q with
  | [], _ => true
  | a :: p', b :: q' => String.eqb a b && is_prefix p' q'
  | _ :: _, [] => false
  end.

(** The counts of the lines whose stack is [p], in input order. *)
Definition counts_at (p : list string) (tr : list (list string * pynum))
  : list pynum :=
  map snd (filter (fun sc => stack_eqb p (fst sc)) tr).

(** The counts of the lines whose stack begins with [p]. *)
Definition counts_under (p : list string) (tr : list (list string * pynum))
  : list pynum :=
  map snd (filter (fun sc => is_prefix p (fst sc)) tr).

(** The sum of the self values in the subtree at the path [p]; [0] when
    there is no node there. *)
Definition subtree_sum (node : TrieNode) (p : list string) : Z :=
  match find_node node p with
  | Some n => self_sum n
  | None => 0
  end.

(** The keys of every dictionary of children are distinct and not empty,
    and every child is named by its key. *)
Fixpoint well_formed (n : TrieNode) : Prop :=
  match n with
  | mkTrieNode _ cs _ _ =>
      NoDup (dict_keys cs)
      /\ (fix all (cs : list (string * TrieNode)) : Prop :=
            match cs with
            | [] => True
            | (k, c) :: cs' =>
                (k <> "" /\ name c = k /\ well_formed c) /\ all cs'
            end) cs
  end.

(** The number of nodes of a tree. *)
Fixpoint node_count (n : TrieNode) : nat :=
  match n with
  | mkTrieNode _ cs _ _ =>
      S (list_sum (map (fun kc => node_count (snd kc)) cs))
  end.

(** The paths from the root to the nodes of a tree, the path of a node
    before those of its subtree. *)
Fixpoint paths (n : TrieNode) : list (list string) :=
  match n with
  | mkTrieNode _ cs _ _ =>
      [] :: flat_map (fun kc => map (cons (fst kc)) (paths (snd kc))) cs
  end.

(** The total at the end of the path [p]; [0] when there is no node
    there. *)
Definition total_at (node : TrieNode) (p : list string) : pynum :=
  match find_node node p with
  | Some n => total_value n
  | None => PyInt 0
  end.

(** The end of line that [readlines] leaves on every line. *)
Definition newline : string := String "010" EmptyString.

(** The value of the variable [separator] when the loop of [build_trie]
    has read [lines]. *)
Fixpoint last_separator (lines : list string) (separator : string) : string :=
  match lines with
  | [] => separator
  | line :: rest =>
      match parse_line line with
      | None => last_separator rest separator
      | Some (stack_str, _) =>
          last_separator rest (next_separator separator stack_str)
      end
  end.


(** ** Formatting: [str.replace], [str] of a number *)

Module PyFmt.

(** The double quote character. *)
Definition quote : string := String "034" EmptyString.

(** [s.replace(old, new)] for an [old] that is not empty: the occurrences
    of [old] are replaced from left to right, and an occurrence that is
    replaced is skipped. *)
Fixpoint replace_loop (old new s : string) (skip : nat) : string :=
  match s with
  | EmptyString => EmptyString
  | String c s' =>
      match skip with
      | S k => replace_loop old new s' k
      | O =>
          if String.prefix old s
          then new ++ replace_loop old new s' (String.length old - 1)
          else String c (replace_loop old new s' 0)
      end
  end.

(** With the empty [old], [new] goes before every character and at the
    end. *)
Fixpoint interleave (new s : string) : string :=
  match s with
  | EmptyString => new
  | String c s' => new ++ String c (interleave new s')
  end.

Definition replace (s old new : string) : string :=
  match old with
  | EmptyString => interleave new s
  | _ => replace_loop old new s 0
  end.

(** [str(z)] for an [int]: the decimal digits, a minus sign before those
    of a negative number. *)
Definition str_int (z : Z) : string := NilZero.string_of_int (Z.to_int z).

Fixpoint zeros (n : nat) : string :=
  match n with
  | O => EmptyString
  | S k => String "0" (zeros k)
  end.

(** *** [repr] of a [float]

    The shortest string of digits that [float()] reads back as the same
    number, and of the strings of that length the nearest; in exponent
    notation when the decimal point would be more than 16 digits to the
    right of the first digit, or more than 3 zeros to its left. *)

(** The quotient and the remainder of [num / den] by [10 ^ k], with the
    divisor. *)
Definition scaled (num den k : Z) : Z * Z * Z :=
  let n := if 0 <=? k then num else num * 10 ^ (- k) in
  let d := if 0 <=? k then den * 10 ^ k else den in
  (n / d, n mod d, d).

(** The decimal exponent [x] of [num / den > 0]:
    [10 ^ x <= num / den < 10 ^ (x + 1)]. *)
Definition log10_floor (num den : Z) : Z :=
  let a := Z.of_nat (String.length (str_int num))
           - Z.of_nat (String.length (str_int den)) in
  let '(q, _, _) := scaled num den a in
  if 1 <=? q then a else a - 1.

(** Whether [lo] is nearer than [lo + 1] to [lo + r / d]; the even one of
    the two in the middle. *)
Definition nearer_below (lo r d : Z) : bool :=
  (2 * r <? d) || ((2 * r =? d) && Z.even lo).

(** The decimal [d * 10 ^ k] of [n] digits that reads back as [f], if
    there is one: the one below or the one above [num / den], the nearer
    of the two when both do. *)
Definition candidate (s : bool) (f : spec_float) (num den x n : Z)
  : option (Z * Z) :=
  let k := x - (n - 1) in
  let '(lo, r, d) := scaled num den k in
  let hi := lo + 1 in
  let lo_ok := SFeqb (float_of_decimal s lo k) f in
  let hi_ok := SFeqb (float_of_decimal s hi k) f in
  if lo_ok && hi_ok
  then Some (if nearer_below lo r d then lo else hi, k)
  else if lo_ok then Some (lo, k)
  else if hi_ok then Some (hi, k)
  else None.

(** The search from [n] digits on; with no [fuel] left, the nearest
    decimal of [n] digits. *)
Fixpoint shortest (fuel : nat) (s : bool) (f : spec_float)
  (num den x n : Z) : Z * Z :=
  match fuel with
  | O =>
      let k := x - (n - 1) in
      let '(lo, r, d) := scaled num den k in
      (if nearer_below lo r d then lo else lo + 1, k)
  | S fuel' =>
      match candidate s f num den x n with
      | Some dk => dk
      | None => shortest fuel' s f num den x (n + 1)
      end
  end.

Definition is_zero (c : ascii) : bool := Ascii.eqb c "0".

(** An exponent has two digits at least. *)
Definition pad2 (s : string) : string :=
  match s with
  | String c EmptyString => String "0" s
  | _ => s
  end.

(** One to sixteen digits are tried, and seventeen always do. *)
Definition repr_finite (s : bool) (m : positive) (e : Z) : string :=
  let num := Zpos m * 2 ^ Z.max e 0 in
  let den := 2 ^ Z.max (- e) 0 in
  let x := log10_floor num den in
  let '(d, k) := shortest 16 s (S754_finite s m e) num den x 1 in
  let all := str_int d in
  let decpt := k + Z.of_nat (String.length all) in
  let ds := PyStr.rstrip_by is_zero all in
  let n := Z.of_nat (String.length ds) in
  (if s then "-" else "") ++
  (if (decpt <=? -4) || (16 <? decpt) then
     match ds with
     | String c EmptyString => ds
     | String c rest => String c ("." ++ rest)
     | EmptyString => EmptyString
     end
     ++ "e" ++ (if decpt - 1 <? 0 then "-" else "+")
     ++ pad2 (str_int (Z.abs (decpt - 1)))
   else if decpt <=? 0 then "0." ++ zeros (Z.to_nat (- decpt)) ++ ds
   else if n <=? decpt then ds ++ zeros (Z.to_nat (decpt - n)) ++ ".0"
   else substring 0 (Z.to_nat decpt) ds ++ "."
        ++ substring (Z.to_nat decpt) (Z.to_nat (n - decpt)) ds).

Definition float_repr (f : spec_float) : string :=
  match f with
  | S754_nan => "nan"
  | S754_infinity s => if s then "-inf" else "inf"
  | S754_zero s => if s then "-0.0" else "0.0"
  | S754_finite s m e => repr_finite s m e
  end.

(** [str(a)], which is what an f-string writes for [{a}]. *)
Definition py_str (a : pynum) : string :=
  match a with
  | PyInt z => str_int z
  | PyFloat f => float_repr f
  end.

End PyFmt.

(** ** [output_csv]

    [print] adds a line to the standard output; the function is modelled
    by the lines that it prints, in order. *)

Definition csv_header : string := "level,value,self,label".

Definition csv_line (row : Row) : string :=
  let label := PyFmt.replace (label row) PyFmt.quote
                             (PyFmt.quote ++ PyFmt.quote) in
  PyFmt.str_int (Z.of_nat (level row)) ++ ","
  ++ PyFmt.py_str (value row) ++ ","
  ++ PyFmt.py_str (self row) ++ ","
  ++ PyFmt.quote ++ label ++ PyFmt.quote.

Definition output_csv (data : list Row) : list string :=
  csv_header :: map csv_line data.

(** *** Reading comma separated values

    The reader of one record that the output is written for (RFC 4180):
    fields are separated by commas; a field that begins with a double
    quote ends at the next double quote that is not doubled, and a doubled
    one stands for one; a field that does not begin with a double quote
    holds none. *)

Inductive csv_state : Type :=
| FieldStart
| InPlain
| InQuoted
| QuoteSeen.

Definition is_quote (c : ascii) : bool := Ascii.eqb c "034".
Definition is_comma (c : ascii) : bool := Ascii.eqb c ",".

Definition emit (cur : string) (r : option (list string))
  : option (list string) :=
  match r with
  | Some fields => Some (cur :: fields)
  | None => None
  end.

Fixpoint csv_read (s : string) (st : csv_state) (cur : string)
  : option (list string) :=
  match s with
  | EmptyString =>
      match st with
      | InQuoted => None
      | _ => Some [cur]
      end
  | String c s' =>
      match st with
      | FieldStart =>
          if is_quote c then csv_read s' InQuoted EmptyString
          else if is_comma c then emit cur (csv_read s' FieldStart EmptyString)
          else csv_read s' InPlain (String c EmptyString)
      | InPlain =>
          if is_comma c then emit cur (csv_read s' FieldStart EmptyString)
          else if is_quote c then None
          else csv_read s' InPlain (cur ++ String c EmptyString)
      | InQuoted =>
          if is_quote c then csv_read s' QuoteSeen cur
          else csv_read s' InQuoted (cur ++ String c EmptyString)
      | QuoteSeen =>
          if is_quote c then csv_read s' InQuoted (cur ++ PyFmt.quote)
          else if is_comma c then emit cur (csv_read s' FieldStart EmptyString)
          else None
      end
  end.

Definition csv_fields (line : string) : option (list string) :=
  csv_read line FieldStart EmptyString.

(** A string without a comma and without a double quote. *)
Fixpoint plain (s : string) : bool :=
  match s with
  | EmptyString => true
  | String c s' => negb (is_comma c) && negb (is_quote c) && plain s'
  end.
(** * Proofs *)

(** ** Induction on tries *)

Lemma TrieNode_ind (P : TrieNode -> Prop) :
  (forall nm cs sv tv,
      Forall (fun kc => P (snd kc)) cs -> P (mkTrieNode nm cs sv tv)) ->
  forall n, P n.
Proof.
  intros step.
  fix IH 1.
  intros [nm cs sv tv].
  apply step.
  induction cs as [|kc cs IHcs]; constructor.
  - apply IH.
  - exact IHcs.
Qed.

Lemma node_eta (n : TrieNode) :
  n = mkTrieNode (name n) (children n) (self_value n) (total_value n).
Proof. destruct n; reflexivity. Qed.

(** ** The monad *)

Lemma bind_Ok {A B : Type} (m : result A) (k : A -> result B) (b : B) :
  bind m k = Ok b -> exists a, m = Ok a /\ k a = Ok b.
Proof.
  destruct m as [a|e]; simpl; intros H; [eauto | discriminate].
Qed.

Ltac inv_bind H :=
  let a := fresh "a" in
  let Ha := fresh "Ha" in
  apply bind_Ok in H; destruct H as (a & Ha & H).

(** ** Dictionaries *)

Section DictFacts.
Context {V : Type}.
Implicit Types (d : list (string * V)) (k : string) (v : V).

Lemma dict_get_set_same d k v : dict_get (dict_set d k v) k = Some v.
Proof.
  induction d as [|[k' v'] d IH]; simpl.
  - now rewrite String.eqb_refl.
  - destruct (String.eqb k' k) eqn:E; simpl; rewrite E; auto.
Qed.

Lemma dict_set_set d k v v' :
  dict_set (dict_set d k v) k v' = dict_set d k v'.
Proof.
  induction d as [|[k0 v0] d IH]; simpl.
  - now rewrite String.eqb_refl.
  - destruct (String.eqb k0 k) eqn:E; simpl; rewrite E; congruence.
Qed.

Lemma dict_get_In d k v : dict_get d k = Some v -> In (k, v) d.
Proof.
  induction d as [|[k' v'] d IH]; simpl; [discriminate|].
  destruct (String.eqb k' k) eqn:E.
  - apply String.eqb_eq in E. intros [= ->]. left; congruence.
  - auto.
Qed.

(** A key that is present keeps its place; a new key goes last. *)
Lemma dict_keys_set d k v :
  dict_keys (dict_set d k v)
  = (dict_keys d
     ++ match dict_get d k with Some _ => [] | None => [k] end)%list.
Proof.
  unfold dict_keys.
  induction d as [|[k' v'] d IH]; simpl; [reflexivity|].
  destruct (String.eqb k' k) eqn:E; simpl.
  - now rewrite app_nil_r.
  - now rewrite IH.
Qed.

Lemma dict_set_present d k v v0 :
  dict_get d k = Some v0 ->
  exists d1 d2, d = (d1 ++ (k, v0) :: d2)%list
                /\ dict_set d k v = (d1 ++ (k, v) :: d2)%list
                /\ dict_get d1 k = None.
Proof.
  induction d as [|[k' v'] d IH]; simpl; [discriminate|].
  destruct (String.eqb k' k) eqn:E.
  - apply String.eqb_eq in E. subst k'. intros [= ->].
    exists [], d. auto.
  - intros H. destruct (IH H) as (d1 & d2 & -> & -> & Hn).
    exists ((k', v') :: d1), d2. simpl. rewrite E. auto.
Qed.

Lemma dict_set_absent d k v :
  dict_get d k = None -> dict_set d k v = (d ++ [(k, v)])%list.
Proof.
  induction d as [|[k' v'] d IH]; simpl; [reflexivity|].
  destruct (String.eqb k' k); [discriminate|].
  intros H. now rewrite IH.
Qed.
End DictFacts.


(** ** Strings *)

Lemma chars_app (a b : string) : chars (a ++ b) = (chars a ++ chars b)%list.
Proof.
  unfold chars. induction a as [|x a IH]; simpl; [reflexivity|].
  now rewrite IH.
Qed.

Lemma rsplit1_absent (s : string) (c : ascii) :
  ~ In c (chars s) -> PyStr.rsplit1 s c = [s].
Proof.
  induction s as [|a s IH]; simpl; intros H; [reflexivity|].
  rewrite IH by tauto.
  destruct (Ascii.eqb a c) eqn:E; [|reflexivity].
  apply Ascii.eqb_eq in E. tauto.
Qed.

Lemma rsplit1_last (a b : string) (c : ascii) :
  ~ In c (chars b) -> PyStr.rsplit1 (a ++ String c b) c = [a; b].
Proof.
  intros H. induction a as [|x a IH]; simpl.
  - rewrite rsplit1_absent by assumption. now rewrite Ascii.eqb_refl.
  - now rewrite IH.
Qed.

(** A string in which [c] occurs splits at the last [c]. *)
Lemma last_occurrence (s : string) (c : ascii) :
  In c (chars s) ->
  exists a b, s = a ++ String c b /\ ~ In c (chars b).
Proof.
  induction s as [|x s IH]; simpl; [tauto|].
  intros H.
  destruct (in_dec ascii_dec c (chars s)) as [Hin|Hout].
  - destruct (IH Hin) as (a & b & -> & Hb).
    exists (String x a), b. auto.
  - destruct H as [->|H]; [|tauto].
    exists "", s. auto.
Qed.

Lemma nonempty_false (s : string) : PyStr.nonempty s = false <-> s = "".
Proof. destruct s; simpl; split; congruence. Qed.

Lemma startswith_hash (s : string) :
  PyStr.startswith s "#" = true <-> exists r, s = String "#" r.
Proof.
  unfold PyStr.startswith. destruct s as [|a s].
  - split; [discriminate | intros [r H]; discriminate].
  - change (String.prefix "#" (String a s))
      with (if ascii_dec "#" a then String.prefix "" s else false).
    destruct (ascii_dec "#" a) as [<-|Hne].
    + split; [eauto | intros _; destruct s; reflexivity].
    + split; [discriminate | intros [r [= H _]]; congruence].
Qed.

Lemma parse_count_None (token : string) :
  parse_count token = None <-> py_int token = None /\ py_float token = None.
Proof.
  unfold parse_count.
  destruct (py_int token); [|destruct (py_float token)];
    split; try discriminate; try tauto; intros [? ?]; discriminate.
Qed.

(** ** Skipped lines *)

Lemma parse_line_None (line : string) :
  parse_line line = None <-> skip_condition line.
Proof.
  unfold parse_line, skip_condition.
  set (t := PyStr.strip line).
  destruct (PyStr.nonempty t) eqn:Hne; simpl.
  2:{ apply nonempty_false in Hne. tauto. }
  assert (Ht : t <> "") by (intros E; apply nonempty_false in E; congruence).
  destruct (PyStr.startswith t "#") eqn:Hst.
  { apply startswith_hash in Hst. tauto. }
  assert (Hh : ~ exists r, t = String "#" r).
  { intros E. apply startswith_hash in E. congruence. }
  destruct (in_dec ascii_dec " "%char (chars t)) as [Hin|Hout].
  - destruct (last_occurrence _ _ Hin) as (a & b & E & Hb).
    rewrite E at 1. rewrite rsplit1_last by assumption.
    destruct (parse_count b) eqn:Hc.
    + split; [discriminate|].
      intros [?|[?|[?|(a' & b' & E' & Hb' & Hi & Hf)]]]; try tauto.
      assert (PyStr.rsplit1 t " " = [a'; b'])
        by (rewrite E' at 1; now apply rsplit1_last).
      assert (PyStr.rsplit1 t " " = [a; b])
        by (rewrite E at 1; now apply rsplit1_last).
      assert (b' = b) by congruence. subst b'.
      assert (parse_count b = None) by (apply parse_count_None; tauto).
      congruence.
    + split; [|reflexivity]. intros _.
      apply parse_count_None in Hc.
      right; right; right. exists a, b. tauto.
  - rewrite rsplit1_absent by assumption. tauto.
Qed.

Lemma insert_line_Skip (root : TrieNode) (separator line : string) :
  insert_line root separator line = Skip <-> parse_line line = None.
Proof.
  unfold insert_line.
  destruct (parse_line line) as [[stack_str count]|]; [|tauto].
  split; [|discriminate].
  destruct (frames _ _); [|discriminate].
  destruct (add_stack _ _ _); discriminate.
Qed.

Lemma build_loop_skip (pre post : list string) (line : string) :
  parse_line line = None ->
  forall root separator,
    build_loop (pre ++ line :: post) root separator
    = build_loop (pre ++ post) root separator.
Proof.
  intros Hskip.
  induction pre as [|l pre IH]; intros root separator; simpl.
  - apply (insert_line_Skip root separator) in Hskip. now rewrite Hskip.
  - destruct (insert_line root separator l); auto.
Qed.

Ltac no_space :=
  let H := fresh in
  vm_compute; intros H;
  repeat (destruct H as [H|H]; [discriminate|]); exact H.

(** C5: one turn of the loop of [build_trie] skips its line exactly when
    the trimmed line is empty, begins with [#], has no space, or ends in a
    token that is neither an integer nor a float; a skipped line leaves the
    tree and the separator as they were, and taking a skipped line out of
    an input changes nothing of the tree that is built.  The five malformed
    lines of the specification are skipped. *)
Theorem skipped_lines :
  (forall root separator line,
      insert_line root separator line = Skip <-> skip_condition line)
  /\ (forall root separator line rest,
         skip_condition line ->
         build_loop (line :: rest) root separator
         = build_loop rest root separator)
  /\ (forall pre line post separator,
         skip_condition line ->
         build_trie (pre ++ line :: post) separator
         = build_trie (pre ++ post) separator)
  /\ Forall skip_condition
        [""; "   "; "# comment"; "no-count-here"; "a;b;c notanumber"].
Proof.
  split; [|split; [|split]].
  - intros. rewrite insert_line_Skip. apply parse_line_None.
  - intros root separator line rest H. apply parse_line_None in H.
    apply (build_loop_skip [] rest line H).
  - intros pre line post separator H. apply parse_line_None in H.
    unfold build_trie. now apply build_loop_skip.
  - apply Forall_cons; [left; vm_compute; reflexivity|].
    apply Forall_cons; [left; vm_compute; reflexivity|].
    apply Forall_cons;
      [right; left; exists " comment"; vm_compute; reflexivity|].
    apply Forall_cons; [right; right; left; no_space|].
    apply Forall_cons; [|apply Forall_nil].
    right; right; right. exists "a;b;c", "notanumber".
    split; [vm_compute; reflexivity|]. split; [no_space|].
    split; vm_compute; reflexivity.
Qed.

Lemma skipped_lines_witness :
  build_loop ("no-count-here" :: ["b 2"]) (new_node "total") ";"
  = build_loop ["b 2"] (new_node "total") ";"
  /\ build_trie (["a 1"] ++ "a;b;c notanumber" :: ["b 2"]) ";"
     = build_trie (["a 1"] ++ ["b 2"]) ";".
Proof.
  split.
  - apply (proj1 (proj2 skipped_lines)). right; right; left. no_space.
  - apply (proj1 (proj2 (proj2 skipped_lines))).
    right; right; right. exists "a;b;c", "notanumber".
    split; [vm_compute; reflexivity|]. split; [no_space|].
    split; vm_compute; reflexivity.
Defined.

(** ** Concrete runs *)

(** C6: on the empty input the tree is the root named total alone, with
    zero counts and no children, and the output is its single row. *)
Theorem empty_input (separator : string) :
  build_trie [] separator = Ok (mkTrieNode "total" [] (PyInt 0) (PyInt 0))
  /\ convert_folded_to_grafana [] separator
     = Ok [mkRow 0 "total" (PyInt 0) (PyInt 0)].
Proof. split; reflexivity. Qed.

(** C7: the rows of scenario 1, in order, with their levels, values and
    self counts. *)
Theorem scenario_1 :
  convert_folded_to_grafana ["a;b;c 5"; "a;b;d 3"; "a;e 2"] ";"
  = Ok [mkRow 0 "total" (PyInt 10) (PyInt 0);
        mkRow 1 "a" (PyInt 10) (PyInt 0);
        mkRow 2 "b" (PyInt 8) (PyInt 0);
        mkRow 3 "c" (PyInt 5) (PyInt 5);
        mkRow 3 "d" (PyInt 3) (PyInt 3);
        mkRow 2 "e" (PyInt 2) (PyInt 2)].
Proof. vm_compute. reflexivity. Qed.

(** C1, the run that shows the defect: alone, the line [a;b 2] is split at
    the semicolon into the frames a and b; after a line in which the slash
    was detected the same line yields the single frame [a;b], because the
    assignment of line 57 changes the variable [separator] for the rest of
    the loop: from the slash no line brings it back. *)
Theorem separator_detection_carries_over :
  convert_folded_to_grafana ["a;b 2"] ";"
  = Ok [mkRow 0 "total" (PyInt 2) (PyInt 0);
        mkRow 1 "a" (PyInt 2) (PyInt 0);
        mkRow 2 "b" (PyInt 2) (PyInt 2)]
  /\ convert_folded_to_grafana ["x/y 1"; "a;b 2"] ";"
     = Ok [mkRow 0 "total" (PyInt 3) (PyInt 0);
           mkRow 1 "a;b" (PyInt 2) (PyInt 2);
           mkRow 1 "x" (PyInt 1) (PyInt 0);
           mkRow 2 "y" (PyInt 1) (PyInt 1)]
  /\ (forall stack_str, next_separator "/" stack_str = "/").
Proof.
  split; [|split]; try (vm_compute; reflexivity).
  intros stack_str. unfold next_separator. now destruct (_ && _).
Qed.

(** ** The walk of a stack *)

Lemma self_at_new_node (frame : string) (stack : list string) :
  self_at (new_node frame) stack = PyInt 0.
Proof. destruct stack; reflexivity. Qed.

Lemma self_at_cons (node : TrieNode) (frame : string) (rest : list string) :
  self_at node (frame :: rest)
  = self_at match dict_get (children node) frame with
            | Some c => c
            | None => new_node frame
            end rest.
Proof.
  unfold self_at at 1. simpl.
  destruct (dict_get (children node) frame); [reflexivity|].
  now rewrite self_at_new_node.
Qed.

(** The walk raises exactly when the addition at its end does; otherwise
    the node at the end of the path carries the sum. *)
Lemma add_stack_Ok (stack : list string) :
  forall node count v,
    py_add (self_at node stack) count = Ok v ->
    exists node' n,
      add_stack node stack count = Ok node'
      /\ find_node node' stack = Some n /\ self_value n = v.
Proof.
  induction stack as [|frame rest IH]; intros node count v H.
  - simpl. unfold self_at in H. simpl in H. rewrite H. simpl. eauto.
  - rewrite self_at_cons in H.
    destruct (IH _ _ _ H) as (child' & n & Hc & Hf & Hv).
    simpl. rewrite Hc. simpl.
    eexists. exists n. split; [reflexivity|].
    simpl. rewrite dict_get_set_same. auto.
Qed.

Lemma add_stack_Raise (stack : list string) :
  forall node count e,
    py_add (self_at node stack) count = Raise e ->
    add_stack node stack count = Raise e.
Proof.
  induction stack as [|frame rest IH]; intros node count e H.
  - simpl. unfold self_at in H. simpl in H. now rewrite H.
  - rewrite self_at_cons in H. simpl. now rewrite (IH _ _ _ H).
Qed.

(** The children that a node has keep their places when a stack is
    walked from it; a child that is created goes last. *)
Lemma add_stack_keys (node : TrieNode) (stack : list string) (count : pynum)
  (node' : TrieNode) :
  add_stack node stack count = Ok node' ->
  exists new, dict_keys (children node')
              = (dict_keys (children node) ++ new)%list.
Proof.
  destruct stack as [|frame rest]; simpl; intros H; inv_bind H.
  - injection H as <-. exists []. simpl. now rewrite app_nil_r.
  - injection H as <-. simpl. rewrite dict_keys_set. eauto.
Qed.

Lemma insert_line_Done (root : TrieNode) (separator line stack_str : string)
  (count : pynum) (stack : list string) (root' : TrieNode) :
  parse_line line = Some (stack_str, count) ->
  frames stack_str (next_separator separator stack_str) = Ok stack ->
  add_stack root stack count = Ok root' ->
  insert_line root separator line
  = Done root' (next_separator separator stack_str).
Proof.
  intros Hp Hf Ha. unfold insert_line. now rewrite Hp, Hf, Ha.
Qed.

(** C9: a count below zero is not rejected.  A line whose count parses as
    a negative number is inserted like any other: unless the addition
    itself raises, the walk ends in a node whose self value is the former
    one plus the negative count; so rows can carry negative numbers. *)
Theorem negative_counts_accepted :
  (forall root separator line stack_str count stack v,
      parse_line line = Some (stack_str, count) ->
      py_lt count (PyInt 0) = true ->
      frames stack_str (next_separator separator stack_str) = Ok stack ->
      py_add (self_at root stack) count = Ok v ->
      exists root' n,
        insert_line root separator line
        = Done root' (next_separator separator stack_str)
        /\ find_node root' stack = Some n /\ self_value n = v)
  /\ parse_line "a;b -5" = Some ("a;b", PyInt (-5))
  /\ convert_folded_to_grafana ["a;b -5"] ";"
     = Ok [mkRow 0 "total" (PyInt (-5)) (PyInt 0);
           mkRow 1 "a" (PyInt (-5)) (PyInt 0);
           mkRow 2 "b" (PyInt (-5)) (PyInt (-5))].
Proof.
  split; [|split; vm_compute; reflexivity].
  intros root separator line stack_str count stack v Hp _ Hf Ha.
  destruct (add_stack_Ok _ _ _ _ Ha) as (root' & n & Hadd & Hfind & Hv).
  exists root', n. split; [|auto].
  eapply insert_line_Done; eassumption.
Qed.

Lemma negative_counts_accepted_witness :
  exists root' n,
    insert_line (new_node "total") ";" "a;b -5" = Done root' ";"
    /\ find_node root' ["a"; "b"] = Some n
    /\ self_value n = PyInt (-5).
Proof.
  exact (proj1 negative_counts_accepted (new_node "total") ";" "a;b -5"
           "a;b" (PyInt (-5)) ["a"; "b"] (PyInt (-5))
           eq_refl eq_refl eq_refl eq_refl).
Defined.

(** ** Totals *)

Lemma children_loop_Ok (calc : TrieNode -> result TrieNode)
  (cs : list (string * TrieNode)) :
  forall total cs' t,
    children_loop calc cs total = Ok (cs', t) ->
    Forall2 (fun kc kc' => fst kc = fst kc' /\ calc (snd kc) = Ok (snd kc'))
            cs cs'
    /\ add_all total (map total_value (dict_values cs')) = Ok t.
Proof.
  induction cs as [|[k child] cs IH]; intros total cs' t H; simpl in H.
  - injection H as <- <-. split; [constructor | reflexivity].
  - inv_bind H. rename a into child'. inv_bind H. rename a into total'.
    inv_bind H. destruct a as [rest' t']. injection H as <- <-.
    destruct (IH _ _ _ Ha1) as [HF Hsum].
    split; [constructor; auto|].
    simpl. rewrite Ha0. exact Hsum.
Qed.

Lemma Forall2_In_r {A B : Type} (R : A -> B -> Prop) (l : list A)
  (l' : list B) (y : B) :
  Forall2 R l l' -> In y l' -> exists x, In x l /\ R x y.
Proof.
  induction 1 as [|x y' l l' HR HF IH]; simpl; [tauto|].
  intros [->|Hin]; [eauto|].
  destruct (IH Hin) as (x0 & ? & ?). eauto.
Qed.

Lemma calculate_totals_node (nm : string) (cs : list (string * TrieNode))
  (sv tv : pynum) (n' : TrieNode) :
  calculate_totals (mkTrieNode nm cs sv tv) = Ok n' ->
  exists cs' total,
    children_loop calculate_totals cs sv = Ok (cs', total)
    /\ n' = mkTrieNode nm cs' sv total.
Proof.
  simpl. intros H. inv_bind H. destruct a as [cs' total].
  injection H as <-. eauto.
Qed.

(** After [calculate_totals] the total of every node is its self value
    with the totals of its children added one after the other. *)
Lemma calculate_totals_accumulates (n : TrieNode) :
  forall n', calculate_totals n = Ok n' ->
  forall d m, node_at d m n' ->
    add_all (self_value m) (child_totals m) = Ok (total_value m).
Proof.
  induction n as [nm cs sv tv IH] using TrieNode_ind.
  intros n' H d m Hm.
  apply calculate_totals_node in H. destruct H as (cs' & total & Hl & ->).
  apply children_loop_Ok in Hl. destruct Hl as [HF Hsum].
  inversion Hm as [|d' m' c t Hin Hc]; subst.
  - exact Hsum.
  - simpl in Hin. unfold dict_values in Hin.
    apply in_map_iff in Hin. destruct Hin as (kc' & <- & Hin).
    destruct (Forall2_In_r _ _ _ _ HF Hin) as (kc & Hkc & _ & Hcalc).
    rewrite Forall_forall in IH.
    exact (IH kc Hkc _ Hcalc _ _ Hc).
Qed.

(** *** Trees of integers *)

Lemma int_tree_node (nm : string) (cs : list (string * TrieNode))
  (sv tv : pynum) :
  int_tree (mkTrieNode nm cs sv tv) = true
  <-> (exists z, sv = PyInt z)
      /\ Forall (fun kc => int_tree (snd kc) = true) cs.
Proof.
  simpl. rewrite andb_true_iff, forallb_forall, Forall_forall.
  destruct sv; simpl; split; intros [H1 H2]; split; eauto;
    try discriminate; destruct H1; discriminate.
Qed.

Lemma add_all_int (zs : list Z) :
  forall z, add_all (PyInt z) (map PyInt zs) = Ok (PyInt (z + zsum zs)).
Proof.
  induction zs as [|x zs IH]; intros z; simpl.
  - f_equal. f_equal. lia.
  - rewrite IH. f_equal. f_equal. lia.
Qed.

Lemma children_loop_int (cs : list (string * TrieNode)) :
  Forall (fun kc =>
            exists c', calculate_totals (snd kc) = Ok c'
                       /\ total_value c' = PyInt (self_sum (snd kc))) cs ->
  forall z, exists cs',
    children_loop calculate_totals cs (PyInt z)
    = Ok (cs', PyInt (z + zsum (map (fun kc => self_sum (snd kc)) cs)))
    /\ map total_value (dict_values cs')
       = map PyInt (map (fun kc => self_sum (snd kc)) cs).
Proof.
  induction 1 as [|[k c] cs (c' & Hc & Ht) HF IH]; intros z; simpl.
  - exists []. split; [|reflexivity]. do 3 f_equal. lia.
  - simpl in Hc, Ht. rewrite Hc. simpl. rewrite Ht. simpl.
    destruct (IH (z + self_sum c)) as (cs' & Hl & Hm).
    rewrite Hl. simpl. exists ((k, c') :: cs'). split.
    + do 3 f_equal. lia.
    + simpl. now rewrite Ht, Hm.
Qed.

(** On a tree of integers [calculate_totals] returns, and the total of
    the root is the sum of all the self values. *)
Lemma calculate_totals_int (n : TrieNode) :
  int_tree n = true ->
  exists n', calculate_totals n = Ok n'
             /\ total_value n' = PyInt (self_sum n).
Proof.
  induction n as [nm cs sv tv IH] using TrieNode_ind.
  intros Hint. apply int_tree_node in Hint. destruct Hint as [[z ->] Hcs].
  assert (HF : Forall (fun kc =>
            exists c', calculate_totals (snd kc) = Ok c'
                       /\ total_value c' = PyInt (self_sum (snd kc))) cs).
  { rewrite Forall_forall in *. intros kc Hin. apply IH; auto. }
  destruct (children_loop_int cs HF z) as (cs' & Hl & _).
  simpl. rewrite Hl. simpl. eexists. split; reflexivity.
Qed.

Lemma calculate_totals_self (n n' : TrieNode) :
  calculate_totals n = Ok n' ->
  name n' = name n /\ self_value n' = self_value n.
Proof.
  destruct n as [nm cs sv tv]. intros H.
  apply calculate_totals_node in H. destruct H as (cs' & total & _ & ->).
  auto.
Qed.

Lemma calculate_totals_int_tree (n : TrieNode) :
  forall n', calculate_totals n = Ok n' ->
             int_tree n = true -> int_tree n' = true.
Proof.
  induction n as [nm cs sv tv IH] using TrieNode_ind.
  intros n' H Hint.
  apply calculate_totals_node in H. destruct H as (cs' & total & Hl & ->).
  apply children_loop_Ok in Hl. destruct Hl as [HF _].
  apply int_tree_node in Hint. destruct Hint as [Hz Hcs].
  apply int_tree_node. split; [assumption|].
  rewrite Forall_forall in *. intros kc' Hin.
  destruct (Forall2_In_r _ _ _ _ HF Hin) as (kc & Hkc & _ & Hcalc).
  eapply IH; eauto.
Qed.

(** In a tree of integers with its totals, every total is an integer:
    the self value plus the sum of the totals of the children. *)
Lemma calculate_totals_conservation_int (n : TrieNode) :
  forall n', calculate_totals n = Ok n' ->
  int_tree n = true ->
  forall d m, node_at d m n' -> conservation_int m.
Proof.
  induction n as [nm cs sv tv IH] using TrieNode_ind.
  intros n' H Hint d m Hm.
  pose proof (calculate_totals_int _ Hint) as (n1 & Hn1 & Htot).
  rewrite H in Hn1. injection Hn1 as <-.
  apply calculate_totals_node in H. destruct H as (cs' & total & Hl & ->).
  apply int_tree_node in Hint. destruct Hint as [[z ->] Hcs].
  inversion Hm as [|d' m' c t Hin Hc]; subst.
  - assert (HF : Forall (fun kc =>
            exists c', calculate_totals (snd kc) = Ok c'
                       /\ total_value c' = PyInt (self_sum (snd kc))) cs).
    { rewrite Forall_forall in *. intros kc Hin.
      apply calculate_totals_int; auto. }
    destruct (children_loop_int cs HF z) as (cs1 & Hl1 & Hmap).
    rewrite Hl in Hl1. injection Hl1 as <- ->.
    exists z, (map (fun kc => self_sum (snd kc)) cs).
    split; [reflexivity|]. split; [exact Hmap | reflexivity].
  - apply children_loop_Ok in Hl. destruct Hl as [HF _].
    simpl in Hin. unfold dict_values in Hin.
    apply in_map_iff in Hin. destruct Hin as (kc' & <- & Hin).
    destruct (Forall2_In_r _ _ _ _ HF Hin) as (kc & Hkc & _ & Hcalc).
    rewrite Forall_forall in IH, Hcs.
    exact (IH kc Hkc _ Hcalc (Hcs kc Hkc) _ _ Hc).
Qed.

(** ** Building from integer counts *)

Lemma zsum_app (l1 l2 : list Z) : zsum (l1 ++ l2) = zsum l1 + zsum l2.
Proof. unfold zsum. induction l1; simpl; lia. Qed.

Lemma self_sum_node (nm : string) (cs : list (string * TrieNode))
  (sv tv : pynum) :
  self_sum (mkTrieNode nm cs sv tv)
  = int_of sv + zsum (map (fun kc => self_sum (snd kc)) cs).
Proof. reflexivity. Qed.

Lemma add_stack_name (node : TrieNode) (stack : list string) (count : pynum)
  (node' : TrieNode) :
  add_stack node stack count = Ok node' -> name node' = name node.
Proof.
  destruct stack; simpl; intros H; inv_bind H; injection H as <-; reflexivity.
Qed.

Lemma add_stack_int (stack : list string) :
  forall node c,
    int_tree node = true ->
    exists node',
      add_stack node stack (PyInt c) = Ok node'
      /\ int_tree node' = true
      /\ self_sum node' = self_sum node + c.
Proof.
  induction stack as [|frame rest IH]; intros [nm cs sv tv] c Hint.
  - apply int_tree_node in Hint. destruct Hint as [[z ->] Hcs].
    simpl. eexists. split; [reflexivity|]. split.
    + apply int_tree_node. eauto.
    + rewrite !self_sum_node. simpl. lia.
  - apply int_tree_node in Hint. destruct Hint as [[z ->] Hcs].
    simpl. destruct (dict_get cs frame) as [child|] eqn:Hget.
    + destruct (dict_set_present cs frame child child Hget)
        as (d1 & d2 & Ecs & _ & _).
      assert (Hchild : int_tree child = true).
      { rewrite Forall_forall in Hcs.
        apply (Hcs (frame, child)). now apply dict_get_In. }
      destruct (IH child c Hchild) as (child' & Hadd & Hint' & Hsum).
      rewrite Hadd. simpl. eexists. split; [reflexivity|].
      destruct (dict_set_present cs frame child' child Hget)
        as (e1 & e2 & Ecs' & Eset & Hnone).
      rewrite Eset. split.
      * apply int_tree_node. split; [eauto|].
        rewrite Ecs' in Hcs. apply Forall_app in Hcs.
        destruct Hcs as [H1 H2]. inversion H2; subst.
        apply Forall_app. split; [assumption|]. constructor; assumption.
      * rewrite !self_sum_node. rewrite Ecs'.
        rewrite !map_app, !zsum_app. simpl. lia.
    + destruct (IH (new_node frame) c eq_refl)
        as (child' & Hadd & Hint' & Hsum).
      rewrite Hadd. simpl. eexists. split; [reflexivity|].
      rewrite (dict_set_absent _ _ _ Hget). split.
      * apply int_tree_node. split; [eauto|].
        apply Forall_app. split; [assumption|]. constructor; auto.
      * rewrite !self_sum_node, map_app, zsum_app. simpl in *. lia.
Qed.

Lemma next_separator_nonempty (separator stack_str : string) :
  separator <> "" -> next_separator separator stack_str <> "".
Proof.
  unfold next_separator. intros H.
  destruct (_ && _); [discriminate | assumption].
Qed.

Lemma frames_Ok (stack_str separator : string) :
  separator <> "" -> exists stack, frames stack_str separator = Ok stack.
Proof.
  intros H. unfold frames, PyStr.split.
  destruct separator; [congruence|]. simpl. eauto.
Qed.

Lemma counts_cons (line : string) (rest : list string) :
  counts (line :: rest)
  = (match parse_line line with
     | Some (_, c) => [c]
     | None => []
     end ++ counts rest)%list.
Proof. reflexivity. Qed.

Lemma int_counts_cons (line : string) (rest : list string) :
  int_counts (line :: rest) ->
  int_counts rest
  /\ forall stack_str count,
       parse_line line = Some (stack_str, count) ->
       exists c, count = PyInt c.
Proof.
  unfold int_counts. rewrite counts_cons. intros H.
  apply Forall_app in H. destruct H as [H1 H2]. split; [assumption|].
  intros stack_str count Hp. rewrite Hp in H1. inversion H1; subst.
  destruct count; [eauto | discriminate].
Qed.

(** With counts that are integers the loop keeps a tree of integers, adds
    every count to the sum of the self values, keeps the name of the root,
    and returns whenever the separator is not empty. *)
Lemma build_loop_int (lines : list string) :
  forall root separator,
    int_counts lines ->
    int_tree root = true ->
    (forall r, build_loop lines root separator = Ok r ->
               int_tree r = true
               /\ name r = name root
               /\ self_sum r = self_sum root + zsum (map int_of (counts lines)))
    /\ (separator <> "" -> exists r, build_loop lines root separator = Ok r).
Proof.
  induction lines as [|line rest IH]; intros root separator Hc Hint.
  - simpl. split; [|eauto]. intros r [= <-]. repeat split; auto.
    unfold zsum. simpl. lia.
  - apply int_counts_cons in Hc. destruct Hc as [Hrest Hline].
    rewrite counts_cons. simpl. unfold insert_line.
    destruct (parse_line line) as [[stack_str count]|].
    2:{ simpl. apply IH; assumption. }
    destruct (Hline _ _ eq_refl) as [c ->].
    destruct (frames stack_str (next_separator separator stack_str))
      as [stack|e] eqn:Hf.
    + destruct (add_stack_int stack root c Hint)
        as (root' & Hadd & Hint' & Hsum).
      rewrite Hadd.
      destruct (IH root' (next_separator separator stack_str) Hrest Hint')
        as [Hpart Htot].
      split.
      * intros r Hr. destruct (Hpart r Hr) as (H1 & H2 & H3).
        split; [assumption|]. split.
        -- rewrite H2. eapply add_stack_name; eassumption.
        -- rewrite H3, Hsum. simpl. unfold zsum at 2. simpl.
           fold (zsum (map int_of (counts rest))). lia.
      * intros Hne. apply Htot. now apply next_separator_nonempty.
    + split; [discriminate|]. intros Hne.
      destruct (frames_Ok stack_str (next_separator separator stack_str))
        as [stack Hs]; [now apply next_separator_nonempty | congruence].
Qed.

Lemma build_and_total_int (lines : list string) (separator : string) :
  int_counts lines ->
  (forall root', build_and_total lines separator = Ok root' ->
     exists root,
       build_trie lines separator = Ok root
       /\ int_tree root = true
       /\ calculate_totals root = Ok root'
       /\ name root' = "total"
       /\ total_value root' = PyInt (zsum (map int_of (counts lines))))
  /\ (separator <> "" -> exists root', build_and_total lines separator = Ok root').
Proof.
  intros Hc. unfold build_and_total, build_trie.
  destruct (build_loop_int lines (new_node "total") separator Hc eq_refl)
    as [Hpart Htot].
  split.
  - intros root' H. inv_bind H. rename a into root.
    destruct (Hpart root Ha) as (Hint & Hname & Hsum).
    exists root. repeat split; auto.
    + destruct (calculate_totals_self _ _ H) as [-> _]. exact Hname.
    + destruct (calculate_totals_int root Hint) as (r1 & Hr1 & Ht).
      rewrite H in Hr1. injection Hr1 as <-.
      rewrite Ht, Hsum. reflexivity.
  - intros Hne. destruct (Htot Hne) as [root Hroot]. rewrite Hroot. simpl.
    destruct (Hpart root Hroot) as (Hint & _).
    destruct (calculate_totals_int root Hint) as (r1 & Hr1 & _). eauto.
Qed.

Lemma trie_to_nested_set_head (n : TrieNode) (lvl : nat) :
  exists rest, trie_to_nested_set n lvl = row_of lvl n :: rest.
Proof. destruct n. simpl. eauto. Qed.

(** ** Conservation and root completeness *)

Lemma py_eq_int (z : Z) : py_eq (PyInt z) (PyInt z) = true.
Proof.
  unfold py_eq, exact, xeq, Qcompare. now rewrite Z.compare_refl.
Qed.

Lemma conservation_of_int (n : TrieNode) : conservation_int n -> conservation n.
Proof.
  intros (z & zs & Hs & Hc & Ht).
  exists (PyInt (0 + zsum zs)), (PyInt (z + (0 + zsum zs))).
  unfold py_sum. rewrite Hc, Hs, Ht, add_all_int.
  repeat split. replace (z + (0 + zsum zs)) with (z + zsum zs) by lia.
  apply py_eq_int.
Qed.

(** C2, as the code has it: after [calculate_totals] the total of every
    node is its self value with the totals of its children added to it one
    after the other, in the order of the children; a leaf's total is its
    self value; and when every count of the input is an integer, the total
    is the self value plus the sum of the children's totals. *)
Theorem totals_conservation (lines : list string) (separator : string)
  (root : TrieNode) :
  build_and_total lines separator = Ok root ->
  forall d n, node_at d n root ->
    add_all (self_value n) (child_totals n) = Ok (total_value n)
    /\ (children n = [] -> total_value n = self_value n)
    /\ (int_counts lines -> conservation_int n /\ conservation n).
Proof.
  intros H d n Hn.
  assert (Hacc : add_all (self_value n) (child_totals n) = Ok (total_value n)).
  { unfold build_and_total in H. inv_bind H.
    eapply calculate_totals_accumulates; eassumption. }
  split; [exact Hacc|]. split.
  - intros Hleaf. unfold child_totals in Hacc. rewrite Hleaf in Hacc.
    simpl in Hacc. congruence.
  - intros Hc.
    destruct (proj1 (build_and_total_int lines separator Hc) root H)
      as (r0 & _ & Hint & Hcalc & _).
    assert (Hci : conservation_int n)
      by (eapply calculate_totals_conservation_int; eassumption).
    split; [exact Hci | now apply conservation_of_int].
Qed.

Lemma totals_conservation_witness :
  conservation_int
    (mkTrieNode "b" [("c", mkTrieNode "c" [] (PyInt 5) (PyInt 5));
                     ("d", mkTrieNode "d" [] (PyInt 3) (PyInt 3))]
                (PyInt 0) (PyInt 8)).
Proof.
  refine (proj1 (proj2 (proj2
    (totals_conservation ["a;b;c 5"; "a;b;d 3"; "a;e 2"] ";"
       (mkTrieNode "total"
          [("a", mkTrieNode "a"
                   [("b", mkTrieNode "b"
                            [("c", mkTrieNode "c" [] (PyInt 5) (PyInt 5));
                             ("d", mkTrieNode "d" [] (PyInt 3) (PyInt 3))]
                            (PyInt 0) (PyInt 8));
                    ("e", mkTrieNode "e" [] (PyInt 2) (PyInt 2))]
                   (PyInt 0) (PyInt 10))]
          (PyInt 0) (PyInt 10))
       eq_refl 2 _ _)) _)).
  - eapply node_below; [left; reflexivity|].
    eapply node_below; [left; reflexivity|]. apply node_here.
  - vm_compute. repeat constructor.
Defined.

(** C2 as stated fails when counts are floats: with the lines [a 0.1],
    [a;b 0.2], [a;c 0.3] the node a has the self value 0.1 and children of
    total 0.2 and 0.3; its total is (0.1 + 0.2) + 0.3 =
    0.6000000000000001, and 0.1 + (0.2 + 0.3) = 0.6. *)
Lemma conservation_fails_on_floats :
  ~ (forall lines separator root,
        build_and_total lines separator = Ok root ->
        forall d n, node_at d n root -> conservation n).
Proof.
  intros H.
  specialize (H ["a 0.1"; "a;b 0.2"; "a;c 0.3"] ";" _ eq_refl 1%nat).
  edestruct H as (s & t & Hs & Ht & Heq).
  { eapply node_below; [left; reflexivity | apply node_here]. }
  vm_compute in Hs. injection Hs as <-.
  vm_compute in Ht. injection Ht as <-.
  vm_compute in Heq. discriminate.
Qed.

(** C3, as the code has it: when every count of the input is an integer
    and the conversion returns, the first row is the root named total, at
    level 0, whose value is the sum of the counts of the lines that are
    not skipped.  A line that yields no frame adds its count to the self
    value of the root. *)
Theorem root_total_is_sum_of_counts :
  (forall lines separator rows,
      int_counts lines ->
      convert_folded_to_grafana lines separator = Ok rows ->
      exists s rest,
        rows = mkRow 0 "total"
                     (PyInt (zsum (map int_of (counts lines)))) s
               :: rest)
  /\ (forall root separator line stack_str count v,
         parse_line line = Some (stack_str, count) ->
         frames stack_str (next_separator separator stack_str) = Ok [] ->
         py_add (self_value root) count = Ok v ->
         insert_line root separator line
         = Done (mkTrieNode (name root) (children root) v (total_value root))
                (next_separator separator stack_str)).
Proof.
  split.
  - intros lines separator rows Hc H.
    destruct (build_and_total_int lines separator Hc) as [Hpart _].
    unfold convert_folded_to_grafana in H.
    inv_bind H. rename a into root'. injection H as <-.
    destruct (Hpart root' Ha) as (root & _ & _ & _ & Hname & Htv).
    destruct (trie_to_nested_set_head root' 0) as [rest ->].
    exists (self_value root'), rest. unfold row_of.
    now rewrite Hname, Htv.
  - intros root separator line stack_str count v Hp Hf Ha.
    eapply insert_line_Done; [eassumption | eassumption |].
    simpl. now rewrite Ha.
Qed.

Lemma root_total_is_sum_of_counts_witness :
  exists s rest,
    [mkRow 0 "total" (PyInt 7) (PyInt 5); mkRow 1 "a" (PyInt 2) (PyInt 2)]
    = mkRow 0 "total" (PyInt 7) s :: rest.
Proof.
  refine (proj1 root_total_is_sum_of_counts [";; 5"; "a 2"] ";" _ _ eq_refl).
  vm_compute. repeat constructor.
Defined.

(** C3 as stated fails when counts are floats: with the lines [a 0.1],
    [b 0.2], [b 0.3] the total of the root is 0.1 + (0.2 + 0.3) = 0.6, and
    the sum of the three counts is (0.1 + 0.2) + 0.3 =
    0.6000000000000001. *)
Lemma root_complete_fails_on_floats :
  ~ (forall lines separator, root_complete lines separator).
Proof.
  intros H.
  edestruct (H ["a 0.1"; "b 0.2"; "b 0.3"] ";")
    as (r & rest & s & Hr & Hs & Heq).
  { vm_compute. reflexivity. }
  injection Hr as <- <-.
  vm_compute in Hs. injection Hs as <-.
  vm_compute in Heq. discriminate.
Qed.

(** ** Duplicate stacks *)

Lemma next_separator_idem (separator stack_str : string) :
  next_separator (next_separator separator stack_str) stack_str
  = next_separator separator stack_str.
Proof. unfold next_separator. now destruct (_ && _). Qed.

Lemma add_stack_twice_int (stack : list string) :
  forall node c1 c2 node1,
    int_tree node = true ->
    add_stack node stack (PyInt c1) = Ok node1 ->
    add_stack node1 stack (PyInt c2) = add_stack node stack (PyInt (c1 + c2)).
Proof.
  induction stack as [|frame rest IH]; intros [nm cs sv tv] c1 c2 node1 Hint H.
  - apply int_tree_node in Hint. destruct Hint as [[z ->] _].
    simpl in H. injection H as <-. simpl. do 3 f_equal. lia.
  - apply int_tree_node in Hint. destruct Hint as [_ Hcs].
    simpl in H. inv_bind H. rename a into child1. injection H as <-.
    simpl. rewrite dict_get_set_same.
    assert (Hchild : int_tree match dict_get cs frame with
                              | Some c => c
                              | None => new_node frame
                              end = true).
    { destruct (dict_get cs frame) as [c|] eqn:Hget; [|reflexivity].
      rewrite Forall_forall in Hcs.
      apply (Hcs (frame, c)). now apply dict_get_In. }
    rewrite (IH _ c1 c2 child1 Hchild Ha).
    destruct (add_stack _ rest (PyInt (c1 + c2))); simpl; [|reflexivity].
    now rewrite dict_set_set.
Qed.

Lemma insert_line_merge_int (root : TrieNode)
  (separator l1 l2 l3 stack_str : string) (c1 c2 : Z) (rest : list string) :
  int_tree root = true ->
  parse_line l1 = Some (stack_str, PyInt c1) ->
  parse_line l2 = Some (stack_str, PyInt c2) ->
  parse_line l3 = Some (stack_str, PyInt (c1 + c2)) ->
  build_loop (l1 :: l2 :: rest) root separator
  = build_loop (l3 :: rest) root separator.
Proof.
  intros Hint H1 H2 H3. cbn [build_loop]. unfold insert_line.
  rewrite H1, H3. cbv zeta.
  destruct (frames stack_str (next_separator separator stack_str))
    as [stack|e] eqn:Hf; [|reflexivity].
  destruct (add_stack_int stack root c1 Hint) as (root1 & Hadd & _).
  rewrite Hadd, H2. cbv zeta.
  rewrite next_separator_idem, Hf.
  rewrite (add_stack_twice_int stack root c1 c2 root1 Hint Hadd).
  now destruct (add_stack root stack (PyInt (c1 + c2))).
Qed.

Lemma insert_line_int (root : TrieNode) (separator line : string)
  (root' : TrieNode) (separator' : string) :
  int_counts [line] ->
  int_tree root = true ->
  insert_line root separator line = Done root' separator' ->
  int_tree root' = true.
Proof.
  intros Hc Hint. unfold insert_line.
  destruct (int_counts_cons _ _ Hc) as [_ Hline].
  destruct (parse_line line) as [[stack_str count]|]; [|discriminate].
  destruct (Hline _ _ eq_refl) as [c ->].
  destruct (frames _ _) as [stack|]; [|discriminate].
  destruct (add_stack_int stack root c Hint) as (r & Hadd & Hr & _).
  rewrite Hadd. intros [= <- _]. exact Hr.
Qed.

Lemma int_counts_app (l1 l2 : list string) :
  int_counts (l1 ++ l2) <-> int_counts l1 /\ int_counts l2.
Proof.
  unfold int_counts, counts. rewrite flat_map_app. apply Forall_app.
Qed.

Lemma build_loop_merge_int (pre : list string) :
  forall root separator l1 l2 l3 stack_str c1 c2 post,
    int_counts pre ->
    int_tree root = true ->
    parse_line l1 = Some (stack_str, PyInt c1) ->
    parse_line l2 = Some (stack_str, PyInt c2) ->
    parse_line l3 = Some (stack_str, PyInt (c1 + c2)) ->
    build_loop (pre ++ l1 :: l2 :: post) root separator
    = build_loop (pre ++ l3 :: post) root separator.
Proof.
  induction pre as [|l pre IH];
    intros root separator l1 l2 l3 stack_str c1 c2 post Hc Hint H1 H2 H3.
  - now apply (insert_line_merge_int root separator l1 l2 l3 stack_str c1 c2).
  - change (l :: pre) with ([l] ++ pre)%list in Hc.
    apply int_counts_app in Hc. destruct Hc as [Hl Hpre].
    simpl. destruct (insert_line root separator l) as [|r s|e] eqn:E.
    + eapply IH; eassumption.
    + eapply IH; try eassumption. eapply insert_line_int; eassumption.
    + reflexivity.
Qed.

(** *** The shape of the tree does not depend on the counts *)

Lemma shape_node (n : TrieNode) :
  shape n = mkTrieNode (name n)
              (map (fun kc => (fst kc, shape (snd kc))) (children n))
              (PyInt 0) (PyInt 0).
Proof. destruct n; reflexivity. Qed.

Lemma shape_dict_set (cs : list (string * TrieNode)) (k : string)
  (v : TrieNode) :
  map (fun kc => (fst kc, shape (snd kc))) (dict_set cs k v)
  = dict_set (map (fun kc => (fst kc, shape (snd kc))) cs) k (shape v).
Proof.
  induction cs as [|[k' v'] cs IH]; simpl; [reflexivity|].
  destruct (String.eqb k' k); simpl; congruence.
Qed.

Lemma add_stack_shape_count (stack : list string) :
  forall node c c' n1 n2,
    add_stack node stack c = Ok n1 ->
    add_stack node stack c' = Ok n2 ->
    shape n1 = shape n2.
Proof.
  induction stack as [|frame rest IH]; intros node c c' n1 n2 H1 H2;
    simpl in H1, H2; inv_bind H1; inv_bind H2;
    injection H1 as <-; injection H2 as <-.
  - reflexivity.
  - rewrite !shape_node. simpl. rewrite !shape_dict_set.
    now rewrite (IH _ _ _ _ _ Ha Ha0).
Qed.

Lemma add_stack_shape_again (stack : list string) :
  forall node c c' n1 n2,
    add_stack node stack c = Ok n1 ->
    add_stack n1 stack c' = Ok n2 ->
    shape n2 = shape n1.
Proof.
  induction stack as [|frame rest IH]; intros node c c' n1 n2 H1 H2;
    simpl in H1; inv_bind H1; injection H1 as <-;
    simpl in H2; inv_bind H2; injection H2 as <-.
  - reflexivity.
  - rewrite dict_get_set_same in Ha0.
    rewrite !shape_node. simpl. rewrite dict_set_set, !shape_dict_set.
    now rewrite (IH _ _ _ _ _ Ha Ha0).
Qed.

Lemma build_loop_merge_shape (pre : list string) :
  forall root separator l1 l2 l3 stack_str c1 c2 c3 t12 t3,
    parse_line l1 = Some (stack_str, c1) ->
    parse_line l2 = Some (stack_str, c2) ->
    parse_line l3 = Some (stack_str, c3) ->
    build_loop (pre ++ [l1; l2]) root separator = Ok t12 ->
    build_loop (pre ++ [l3]) root separator = Ok t3 ->
    shape t12 = shape t3.
Proof.
  induction pre as [|l pre IH];
    intros root separator l1 l2 l3 stack_str c1 c2 c3 t12 t3 H1 H2 H3.
  - cbn [app build_loop]. unfold insert_line. rewrite H1, H3. cbv zeta.
    destruct (frames stack_str (next_separator separator stack_str))
      as [stack|e] eqn:Hf; [|discriminate].
    destruct (add_stack root stack c1) as [r1|] eqn:Ha1; [|discriminate].
    rewrite H2. cbv zeta. rewrite next_separator_idem, Hf.
    destruct (add_stack r1 stack c2) as [r12|] eqn:Ha2; [|discriminate].
    destruct (add_stack root stack c3) as [r3|] eqn:Ha3; [|discriminate].
    intros [= <-] [= <-].
    rewrite (add_stack_shape_again _ _ _ _ _ _ Ha1 Ha2).
    exact (add_stack_shape_count _ _ _ _ _ _ Ha1 Ha3).
  - simpl. destruct (insert_line root separator l); try discriminate;
      eapply IH; eassumption.
Qed.

(** C10, as the code has it: two lines with the same stack part and the
    integer counts c1 and c2, inserted after lines whose counts are
    integers, give exactly the tree that one line with the count c1 + c2
    gives, whatever follows.  With any counts, when both inputs are
    converted, the two trees have the same nodes in the same order: the
    second line walks the path of the first and creates no sibling. *)
Theorem duplicate_stacks_merge :
  (forall pre post separator l1 l2 l3 stack_str c1 c2,
      int_counts pre ->
      parse_line l1 = Some (stack_str, PyInt c1) ->
      parse_line l2 = Some (stack_str, PyInt c2) ->
      parse_line l3 = Some (stack_str, PyInt (c1 + c2)) ->
      build_trie (pre ++ l1 :: l2 :: post) separator
      = build_trie (pre ++ l3 :: post) separator)
  /\ (forall pre separator l1 l2 l3 stack_str c1 c2 c3 t12 t3,
         parse_line l1 = Some (stack_str, c1) ->
         parse_line l2 = Some (stack_str, c2) ->
         parse_line l3 = Some (stack_str, c3) ->
         build_trie (pre ++ [l1; l2]) separator = Ok t12 ->
         build_trie (pre ++ [l3]) separator = Ok t3 ->
         shape t12 = shape t3).
Proof.
  split.
  - intros. unfold build_trie.
    eapply build_loop_merge_int; try eassumption. reflexivity.
  - intros. unfold build_trie in *.
    eapply build_loop_merge_shape with (l1 := l1) (l2 := l2) (l3 := l3);
      eassumption.
Qed.

Lemma duplicate_stacks_merge_witness :
  build_trie (["a;b 1"] ++ "a;b 2" :: "a;b 3" :: ["c 1"]) ";"
  = build_trie (["a;b 1"] ++ "a;b 5" :: ["c 1"]) ";".
Proof.
  refine (proj1 duplicate_stacks_merge ["a;b 1"] ["c 1"] ";"
            "a;b 2" "a;b 3" "a;b 5" "a;b" 2 3 _ eq_refl eq_refl eq_refl).
  vm_compute. repeat constructor.
Defined.

(** C10 as stated fails when counts are floats: after the line [a 0.1]
    the two lines [a 0.2] and [a 0.3] leave the self value
    (0.1 + 0.2) + 0.3 = 0.6000000000000001 in the node a, and the one line
    [a 0.5], whose count is 0.2 + 0.3, leaves 0.1 + 0.5 = 0.6. *)
Lemma duplicate_merge_fails_on_floats :
  ~ (forall pre separator l1 l2 l3 stack_str c1 c2 c3,
        parse_line l1 = Some (stack_str, c1) ->
        parse_line l2 = Some (stack_str, c2) ->
        parse_line l3 = Some (stack_str, c3) ->
        py_add c1 c2 = Ok c3 ->
        build_trie (pre ++ [l1; l2]) separator
        = build_trie (pre ++ [l3]) separator).
Proof.
  intros H.
  specialize (H ["a 0.1"] ";" "a 0.2" "a 0.3" "a 0.5" "a"
                _ _ _ eq_refl eq_refl eq_refl eq_refl).
  vm_compute in H. discriminate.
Qed.

(** ** The order of Python numbers *)

Lemma exact_nan (a : pynum) : exact a = XNaN <-> is_nan a = true.
Proof.
destruct a as [z|[s|s| |s m e]]; simpl; split; try discriminate;
  try reflexivity; destruct s; discriminate.
Qed.

Lemma xlt_Fin (p q : Q) : xlt (XFin p) (XFin q) = true <-> (p < q)%Q.
Proof.
simpl. rewrite Qlt_alt. destruct (p ?= q)%Q; split; congruence.
Qed.

Lemma xeq_Fin (p q : Q) : xeq (XFin p) (XFin q) = true <-> (p == q)%Q.
Proof.
simpl. rewrite Qeq_alt. destruct (p ?= q)%Q; split; congruence.
Qed.

Lemma xle_Fin (p q : Q) : xle (XFin p) (XFin q) = true <-> (p <= q)%Q.
Proof.
unfold xle. rewrite orb_true_iff, xlt_Fin, xeq_Fin.
rewrite Qle_lteq. tauto.
Qed.

(** Without NaN the order is total ... *)
Lemma xle_total (x y : xreal) :
x <> XNaN -> y <> XNaN -> xlt x y = false -> xle y x = true.
Proof.
intros Hx Hy H.
destruct x as [| |p|], y as [| |q|]; try congruence; try reflexivity;
  try discriminate.
apply xle_Fin. apply Qnot_lt_le. intros Hlt.
apply xlt_Fin in Hlt. congruence.
Qed.

(** ... and transitive. *)
Lemma xle_trans (x y z : xreal) :
xle x y = true -> xle y z = true -> xle x z = true.
Proof.
destruct x as [| |p|], y as [| |q|], z as [| |r|];
  try discriminate; try reflexivity.
rewrite !xle_Fin. apply Qle_trans.
Qed.

Lemma xlt_xle (x y : xreal) : xlt x y = true -> xle x y = true.
Proof. unfold xle. now intros ->. Qed.

(** Of two numbers equal to a third, neither is below the other. *)
Lemma xeq_not_xlt (x y v : xreal) :
xeq x v = true -> xlt x y = true -> xeq y v = false.
Proof.
destruct x as [| |p|], y as [| |q|], v as [| |r|];
  try discriminate; try reflexivity.
rewrite xeq_Fin, xlt_Fin. intros He Hl.
destruct (xeq (XFin q) (XFin r)) eqn:E; [|reflexivity].
apply xeq_Fin in E. rewrite He, <- E in Hl.
now apply Qlt_irrefl in Hl.
Qed.

Lemma py_eq_not_lt (a b v : pynum) :
  py_eq a v = true -> py_lt a b = true -> py_eq b v = false.
Proof. apply xeq_not_xlt. Qed.

Lemma py_le_xle (a b : pynum) : py_le a b = xle (exact a) (exact b).
Proof. reflexivity. Qed.

(** ** [sorted] *)

Section SortedFacts.
Context {A : Type} (key : A -> pynum).

Lemma insert_desc_In (x y : A) (l : list A) :
  In y (insert_desc key x l) <-> y = x \/ In y l.
Proof.
  induction l as [|z l IH]; simpl.
  - intuition congruence.
  - destruct (py_lt (key x) (key z)); simpl; rewrite ?IH;
      intuition congruence.
Qed.

Lemma sorted_desc_In (y : A) (l : list A) :
  In y (sorted_desc key l) <-> In y l.
Proof.
  induction l as [|x l IH]; simpl; [tauto|].
  rewrite insert_desc_In, IH. intuition congruence.
Qed.

Lemma sorted_desc_length (l : list A) :
  length (sorted_desc key l) = length l.
Proof.
  induction l as [|x l IH]; simpl; [reflexivity|].
  rewrite <- IH. generalize (sorted_desc key l). intros s.
  induction s as [|z s IHs]; simpl; [reflexivity|].
  destruct (py_lt (key x) (key z)); simpl; congruence.
Qed.

(** The keys come in non-increasing order when none is a NaN. *)
Lemma insert_desc_sorted (x : A) (l : list A) :
  is_nan (key x) = false ->
  Forall (fun a => is_nan (key a) = false) l ->
  StronglySorted (ge_key key) l ->
  StronglySorted (ge_key key) (insert_desc key x l).
Proof.
  intros Hx Hl Hs.
  induction Hs as [|y l Hs IH Hy]; simpl.
  - constructor; constructor.
  - inversion Hl as [|? ? Hny Hl']; subst.
    destruct (py_lt (key x) (key y)) eqn:E.
    + constructor; [auto|].
      apply Forall_forall. intros z Hz.
      apply insert_desc_In in Hz. destruct Hz as [->|Hz].
      * unfold ge_key. rewrite py_le_xle. now apply xlt_xle.
      * rewrite Forall_forall in Hy. auto.
    + assert (Hyx : ge_key key x y).
      { unfold ge_key. rewrite py_le_xle. apply xle_total; auto.
        - intros N. apply exact_nan in N. congruence.
        - intros N. apply exact_nan in N. congruence. }
      constructor; [constructor; assumption|].
      constructor; [assumption|].
      apply Forall_forall. intros z Hz.
      rewrite Forall_forall in Hy. specialize (Hy z Hz).
      unfold ge_key in *. rewrite py_le_xle in *.
      eapply xle_trans; eassumption.
Qed.

Lemma sorted_desc_sorted (l : list A) :
  Forall (fun a => is_nan (key a) = false) l ->
  StronglySorted (ge_key key) (sorted_desc key l).
Proof.
  induction 1 as [|x l Hx Hl IH]; [constructor|].
  cbn [sorted_desc fold_right]. fold (sorted_desc key l).
  apply insert_desc_sorted; [exact Hx | | exact IH].
  apply Forall_forall. intros y Hy. rewrite sorted_desc_In in Hy.
  rewrite Forall_forall in Hl. auto.
Qed.

(** The sort is stable: the elements whose key equals [v] keep their
    order. *)
Lemma insert_desc_filter (v : pynum) (x : A) (l : list A) :
  filter (fun a => py_eq (key a) v) (insert_desc key x l)
  = filter (fun a => py_eq (key a) v) (x :: l).
Proof.
  induction l as [|y l IH]; [reflexivity|].
  cbn [insert_desc]. destruct (py_lt (key x) (key y)) eqn:E;
    [|reflexivity].
  cbn [filter] in *. rewrite IH.
  destruct (py_eq (key x) v) eqn:Ex; [|reflexivity].
  now rewrite (py_eq_not_lt _ _ _ Ex E).
Qed.

Lemma sorted_desc_stable (v : pynum) (l : list A) :
  filter (fun a => py_eq (key a) v) (sorted_desc key l)
  = filter (fun a => py_eq (key a) v) l.
Proof.
  induction l as [|x l IH]; [reflexivity|].
  cbn [sorted_desc fold_right]. rewrite insert_desc_filter.
  cbn [filter]. fold (sorted_desc key l). now rewrite IH.
Qed.
End SortedFacts.

Lemma sorted_desc_pairs {A B : Type} (key : A -> pynum) (f : A -> B)
(l : list A) :
sorted_desc (fun v => key (fst v)) (map (fun x => (x, f x)) l)
= map (fun x => (x, f x)) (sorted_desc key l).
Proof.
induction l as [|x l IH]; [reflexivity|].
cbn [map sorted_desc fold_right].
fold (sorted_desc (fun v : A * B => key (fst v)) (map (fun x => (x, f x)) l)).
fold (sorted_desc key l). rewrite IH.
generalize (sorted_desc key l). intros s.
induction s as [|y s IHs]; [reflexivity|].
cbn [map insert_desc fst]. destruct (py_lt (key x) (key y)); cbn [map];
  congruence.
Qed.

(** ** The rows *)

Lemma flat_map_over_map {A B C : Type} (f : B -> list C) (g : A -> B)
  (l : list A) :
  flat_map f (map g l) = flat_map (fun x => f (g x)) l.
Proof.
  induction l as [|x l IH]; simpl; [reflexivity|]. now rewrite IH.
Qed.

(** The equation of [trie_to_nested_set] as the source has it: the row of
    the node, then the rows of its children in sorted order. *)
Lemma trie_to_nested_set_eq (node : TrieNode) (lvl : nat) :
  trie_to_nested_set node lvl
  = row_of lvl node
    :: flat_map (fun child => trie_to_nested_set child (S lvl))
         (sorted_desc total_value (dict_values (children node))).
Proof.
  destruct node as [nm cs sv tv]. cbn [trie_to_nested_set]. unfold row_of.
  cbn [name children self_value total_value]. f_equal.
  unfold dict_values.
  rewrite <- (map_map snd (fun c => (c, trie_to_nested_set c))).
  rewrite (sorted_desc_pairs total_value).
  now rewrite flat_map_over_map.
Qed.

Lemma TrieNode_sorted_ind (P : TrieNode -> Prop) :
  (forall n,
      (forall c,
          In c (sorted_desc total_value (dict_values (children n))) -> P c) ->
      P n) ->
  forall n, P n.
Proof.
  intros step n. induction n as [nm cs sv tv IH] using TrieNode_ind.
  apply step. intros c Hc. rewrite sorted_desc_In in Hc. simpl in Hc.
  unfold dict_values in Hc. apply in_map_iff in Hc.
  destruct Hc as (kc & <- & Hin).
  rewrite Forall_forall in IH. auto.
Qed.

(** Below the row of a node every row of its subtree is at a deeper
    level. *)
Lemma rows_below (n : TrieNode) :
  forall lvl,
    Forall (fun r => (lvl < level r)%nat) (tl (trie_to_nested_set n lvl)).
Proof.
  induction n as [n IH] using TrieNode_sorted_ind. intros lvl.
  rewrite trie_to_nested_set_eq. cbn [tl].
  apply Forall_flat_map. apply Forall_forall. intros c Hc.
  specialize (IH c Hc (S lvl)).
  destruct (trie_to_nested_set_head c (S lvl)) as [rest E].
  rewrite E in *. cbn [tl] in IH. constructor.
  - simpl. lia.
  - eapply Forall_impl; [|exact IH]. simpl. intros r Hr. lia.
Qed.

Lemma rows_from (n : TrieNode) (lvl : nat) :
  Forall (fun r => (lvl <= level r)%nat) (trie_to_nested_set n lvl).
Proof.
  pose proof (rows_below n lvl) as H.
  destruct (trie_to_nested_set_head n lvl) as [rest E].
  rewrite E in *. cbn [tl] in H. constructor.
  - simpl. lia.
  - eapply Forall_impl; [|exact H]. simpl. intros r Hr. lia.
Qed.

(** *** Going deeper one level at a time *)

Lemma steps_ok_app (l1 l2 : list Row) (lo : nat) :
  (forall q, (lo <= q)%nat -> steps_ok q l2) ->
  forall p,
    steps_ok p l1 -> (lo <= p)%nat ->
    Forall (fun r => (lo <= level r)%nat) l1 ->
    steps_ok p (l1 ++ l2).
Proof.
  intros H2. induction l1 as [|r l1 IH]; intros p H1 Hp Hl; simpl.
  - auto.
  - destruct H1 as [Hr H1]. inversion Hl; subst. split; auto.
Qed.

Lemma rows_steps (n : TrieNode) :
  forall lvl q, (lvl <= S q)%nat -> steps_ok q (trie_to_nested_set n lvl).
Proof.
  induction n as [n IH] using TrieNode_sorted_ind. intros lvl q Hq.
  rewrite trie_to_nested_set_eq. split; [simpl; lia|].
  cbn [level row_of].
  assert (H : forall p, (lvl <= p)%nat ->
    steps_ok p (flat_map (fun child => trie_to_nested_set child (S lvl))
                  (sorted_desc total_value (dict_values (children n)))));
    [|now apply H].
  revert IH.
  generalize (sorted_desc total_value (dict_values (children n))).
  intros l. induction l as [|c l IHl]; intros IH p Hp; simpl; [exact I|].
  apply steps_ok_app with (lo := lvl).
  - intros q' Hq'. apply IHl; [|assumption].
    intros c' Hc'. apply IH. now right.
  - apply IH; [now left | lia].
  - assumption.
  - eapply Forall_impl; [|apply rows_from]. simpl. intros r Hr. lia.
Qed.

Lemma steps_ok_adjacent (pre post : list Row) (r1 r2 : Row) :
  forall q, steps_ok q (pre ++ r1 :: r2 :: post) ->
            (level r2 <= S (level r1))%nat.
Proof.
  induction pre as [|x pre IH]; intros q H; simpl in H.
  - tauto.
  - destruct H as [_ H]. eauto.
Qed.

(** *** The parent's row comes before *)

Lemma app_split_at {A : Type} (a b pre post : list A) (r : A) :
  (a ++ b = pre ++ r :: post)%list ->
  (exists bpost, a = pre ++ r :: bpost /\ post = bpost ++ b)%list
  \/ (exists pre', pre = a ++ pre' /\ b = pre' ++ r :: post)%list.
Proof.
  revert pre. induction a as [|x a IH]; intros pre H; simpl in H.
  - right. exists pre. auto.
  - destruct pre as [|y pre]; simpl in H.
    + injection H as -> <-. left. exists a. auto.
    + injection H as -> H. destruct (IH _ H) as [(bp & -> & ->)|(p' & -> & ->)].
      * left. exists bp. auto.
      * right. exists p'. auto.
Qed.

Lemma flat_map_split {A B : Type} (f : A -> list B) (l : list A) :
  forall pre r post,
    flat_map f l = (pre ++ r :: post)%list ->
    exists l1 c l2 bpre bpost,
      l = (l1 ++ c :: l2)%list
      /\ f c = (bpre ++ r :: bpost)%list
      /\ pre = (flat_map f l1 ++ bpre)%list
      /\ post = (bpost ++ flat_map f l2)%list.
Proof.
  induction l as [|c l IH]; intros pre r post H; simpl in H.
  - destruct pre; discriminate.
  - apply app_split_at in H.
    destruct H as [(bpost & Hc & ->)|(pre' & -> & H)].
    + exists [], c, l, pre, bpost. auto.
    + destruct (IH _ _ _ H) as (l1 & c' & l2 & bpre & bpost & -> & Hc & -> & ->).
      exists (c :: l1), c', l2, bpre, bpost. simpl.
      rewrite app_assoc. auto.
Qed.

(** A row at level [S k] that is not the first row of the traversal of
    [n] comes after the row, at level [k], of a node of which its own node
    is a child, and every row in between is at a level of [S k] at
    least. *)
Lemma parent_row_precedes (n : TrieNode) :
  forall lvl pre r post k,
    trie_to_nested_set n lvl = (pre ++ r :: post)%list ->
    level r = S k -> (lvl <= k)%nat ->
    exists pre1 pre2 p c,
      pre = (pre1 ++ row_of k p :: pre2)%list
      /\ r = row_of (S k) c
      /\ node_at (k - lvl) p n
      /\ In c (dict_values (children p))
      /\ Forall (fun x => (S k <= level x)%nat) pre2.
Proof.
  induction n as [n IH] using TrieNode_sorted_ind.
  intros lvl pre r post k H Hr Hk.
  rewrite trie_to_nested_set_eq in H.
  destruct pre as [|x pre]; simpl in H.
  { injection H as <- _. simpl in Hr. lia. }
  injection H as <- H.
  apply flat_map_split in H.
  destruct H as (l1 & c & l2 & bpre & bpost & Hl & Hc & -> & ->).
  assert (Hin : In c (sorted_desc total_value (dict_values (children n))))
    by (rewrite Hl; apply in_elt).
  assert (Hl1 : Forall (fun x => (S lvl <= level x)%nat)
                  (flat_map (fun child => trie_to_nested_set child (S lvl)) l1)).
  { apply Forall_flat_map. apply Forall_forall. intros c' _. apply rows_from. }
  destruct bpre as [|y bpre].
  - destruct (trie_to_nested_set_head c (S lvl)) as [rest E].
    rewrite E in Hc. injection Hc as <- _. simpl in Hr.
    injection Hr as <-.
    exists [], (flat_map (fun child => trie_to_nested_set child (S lvl)) l1),
      n, c.
    rewrite app_nil_r, Nat.sub_diag. repeat split; auto.
    + constructor.
    + now apply sorted_desc_In in Hin.
  - assert (Hdeep : (S lvl <= k)%nat).
    { pose proof (rows_below c (S lvl)) as Hb. rewrite Hc in Hb.
      cbn [tl app] in Hb. rewrite Forall_forall in Hb.
      specialize (Hb r (in_elt _ _ _)). lia. }
    destruct (IH c Hin (S lvl) _ _ _ k Hc Hr Hdeep)
      as (pre1 & pre2 & p & c0 & E & -> & Hp & Hc0 & Hpre2).
    exists (row_of lvl n
            :: flat_map (fun child => trie_to_nested_set child (S lvl)) l1
            ++ pre1)%list, pre2, p, c0.
    rewrite E. simpl. rewrite <- app_assoc. repeat split; auto.
    replace (k - lvl)%nat with (S (k - S lvl)) by lia.
    apply node_below with (c := c); [|assumption].
    now apply sorted_desc_In in Hin.
Qed.

(** *** Rows and nodes *)

Lemma row_in_rows (d : nat) (m n : TrieNode) :
  node_at d m n ->
  forall lvl, In (row_of (lvl + d) m) (trie_to_nested_set n lvl).
Proof.
  induction 1 as [t|d m c t Hc Hm IH]; intros lvl;
    rewrite trie_to_nested_set_eq.
  - rewrite Nat.add_0_r. now left.
  - right. apply in_flat_map. exists c. split.
    + now apply sorted_desc_In.
    + replace (lvl + S d)%nat with (S lvl + d)%nat by lia. apply IH.
Qed.

Lemma rows_are_nodes (n : TrieNode) :
  forall lvl r,
    In r (trie_to_nested_set n lvl) ->
    exists d m, node_at d m n /\ r = row_of (lvl + d) m.
Proof.
  induction n as [n IH] using TrieNode_sorted_ind. intros lvl r H.
  rewrite trie_to_nested_set_eq in H. destruct H as [<-|H].
  - exists 0%nat, n. rewrite Nat.add_0_r. split; [constructor | reflexivity].
  - apply in_flat_map in H. destruct H as (c & Hc & Hr).
    destruct (IH c Hc _ _ Hr) as (d & m & Hm & ->).
    exists (S d), m. split.
    + apply node_below with (c := c); [|assumption].
      now apply sorted_desc_In in Hc.
    + f_equal. lia.
Qed.

(** The rows of a node of the tree form one block of the output. *)
Lemma node_block (d : nat) (m n : TrieNode) :
  node_at d m n ->
  forall lvl, exists pre post,
    trie_to_nested_set n lvl
    = (pre ++ trie_to_nested_set m (lvl + d) ++ post)%list.
Proof.
  induction 1 as [t|d m c t Hc Hm IH]; intros lvl.
  - exists [], []. rewrite Nat.add_0_r, app_nil_r. reflexivity.
  - rewrite trie_to_nested_set_eq.
    apply (sorted_desc_In total_value) in Hc.
    apply in_split in Hc. destruct Hc as (l1 & l2 & ->).
    destruct (IH (S lvl)) as (pre & post & E).
    rewrite flat_map_app. cbn [flat_map]. rewrite E.
    replace (lvl + S d)%nat with (S lvl + d)%nat by lia.
    exists (row_of lvl t
            :: flat_map (fun child => trie_to_nested_set child (S lvl)) l1
            ++ pre)%list,
      (post ++ flat_map (fun child => trie_to_nested_set child (S lvl)) l2)%list.
    cbn [app]. f_equal. now rewrite <- !app_assoc.
Qed.

(** *** The rows of the children *)

Lemma filter_none {A : Type} (p : A -> bool) (l : list A) :
  Forall (fun x => p x = false) l -> filter p l = [].
Proof.
  induction 1 as [|x l Hx _ IH]; simpl; [reflexivity|]. now rewrite Hx.
Qed.

Lemma child_rows_eq (n : TrieNode) (lvl : nat) :
  child_rows lvl (trie_to_nested_set n lvl)
  = map (row_of (S lvl))
        (sorted_desc total_value (dict_values (children n))).
Proof.
  unfold child_rows. rewrite trie_to_nested_set_eq. cbn [tl].
  generalize (sorted_desc total_value (dict_values (children n))).
  intros l. induction l as [|c l IH]; [reflexivity|].
  cbn [flat_map map]. rewrite filter_app, IH.
  pose proof (rows_below c (S lvl)) as Hb.
  destruct (trie_to_nested_set_head c (S lvl)) as [rest E].
  rewrite E in *. cbn [tl] in Hb. cbn [filter level row_of].
  rewrite Nat.eqb_refl, filter_none; [reflexivity|].
  eapply Forall_impl; [|exact Hb]. simpl. intros r Hr.
  apply Nat.eqb_neq. lia.
Qed.

Lemma StronglySorted_map {A B : Type} (R : A -> A -> Prop)
  (R' : B -> B -> Prop) (g : A -> B) (l : list A) :
  (forall a b, R a b -> R' (g a) (g b)) ->
  StronglySorted R l -> StronglySorted R' (map g l).
Proof.
  intros HR. induction 1 as [|x l Hs IH Hx]; simpl; constructor; auto.
  apply Forall_forall. intros y Hy. apply in_map_iff in Hy.
  destruct Hy as (a & <- & Ha). rewrite Forall_forall in Hx. auto.
Qed.

Lemma filter_map_swap {A B : Type} (p : B -> bool) (g : A -> B)
  (l : list A) :
  filter p (map g l) = map g (filter (fun a => p (g a)) l).
Proof.
  induction l as [|x l IH]; simpl; [reflexivity|].
  destruct (p (g x)); simpl; congruence.
Qed.

(** ** Sibling order and levels *)

Lemma convert_rows (lines : list string) (separator : string)
  (rows : list Row) :
  convert_folded_to_grafana lines separator = Ok rows <->
  exists root, build_and_total lines separator = Ok root
               /\ rows = trie_to_nested_set root 0.
Proof.
  unfold convert_folded_to_grafana. split.
  - intros H. inv_bind H. injection H as <-. eauto.
  - intros (root & -> & ->). reflexivity.
Qed.

Lemma siblings_non_increasing_holds (d : nat) (n : TrieNode) :
  no_nan_child n -> siblings_non_increasing d n.
Proof.
  intros Hnan. unfold siblings_non_increasing. rewrite child_rows_eq.
  apply StronglySorted_map with (R := ge_key total_value).
  - intros a b Hab. exact Hab.
  - apply sorted_desc_sorted. exact Hnan.
Qed.

(** C4, as the code has it: in the output the rows of every node form one
    block.  When no child of the node has a NaN for its total, the rows of
    the node's children in that block are the children sorted: they are in
    non-increasing order of value, and the children of equal value keep
    the order of the dictionary.  That order is the order of creation:
    walking a stack leaves the children that a node has in their places
    and puts a new child last.  Nothing is stated of the order of the
    children of a node one of whose children has a NaN for its total. *)
Theorem sibling_order :
  (forall lines separator root d n,
      build_and_total lines separator = Ok root ->
      node_at d n root ->
      (exists pre post,
          convert_folded_to_grafana lines separator
          = Ok (pre ++ trie_to_nested_set n d ++ post)%list)
      /\ (no_nan_child n ->
          siblings_stable d n /\ siblings_non_increasing d n))
  /\ (forall node stack count node',
         add_stack node stack count = Ok node' ->
         exists new, dict_keys (children node')
                     = (dict_keys (children node) ++ new)%list).
Proof.
  split.
  - intros lines separator root d n Hroot Hn. split.
    + destruct (node_block d n root Hn 0) as (pre & post & E).
      exists pre, post. unfold convert_folded_to_grafana.
      rewrite Hroot. simpl. now rewrite E.
    + intros Hnan. split.
      * unfold siblings_stable. rewrite child_rows_eq.
        split; [reflexivity|].
        intros v. rewrite filter_map_swap. cbn [value row_of]. f_equal.
        apply sorted_desc_stable.
      * now apply siblings_non_increasing_holds.
  - intros node stack count node'. apply add_stack_keys.
Qed.

Lemma sibling_order_witness :
  siblings_stable 0
    (mkTrieNode "total"
       [("a", mkTrieNode "a" [] (PyInt 1) (PyInt 1));
        ("b", mkTrieNode "b" [] (PyInt 2) (PyInt 2));
        ("c", mkTrieNode "c" [] (PyInt 1) (PyInt 1));
        ("d", mkTrieNode "d" [] (PyInt 2) (PyInt 2))]
       (PyInt 0) (PyInt 6))
  /\ siblings_non_increasing 0
       (mkTrieNode "total"
          [("a", mkTrieNode "a" [] (PyInt 1) (PyInt 1));
           ("b", mkTrieNode "b" [] (PyInt 2) (PyInt 2));
           ("c", mkTrieNode "c" [] (PyInt 1) (PyInt 1));
           ("d", mkTrieNode "d" [] (PyInt 2) (PyInt 2))]
          (PyInt 0) (PyInt 6)).
Proof.
  refine (proj2
    (proj1 sibling_order ["a 1"; "b 2"; "c 1"; "d 2"] ";" _ 0%nat _
       eq_refl (node_here _)) _).
  repeat constructor.
Defined.

(** C4 as stated fails when a total is a NaN: with the lines [a 1],
    [b nan], [c 2] no comparison with the total of b is true, the sort
    leaves the three children as they are, and the row of a, of value 1,
    comes before the row of c, of value 2. *)
Lemma sibling_order_fails_on_nan :
  convert_folded_to_grafana ["a 1"; "b nan"; "c 2"] ";"
  = Ok [mkRow 0 "total" (PyFloat S754_nan) (PyInt 0);
        mkRow 1 "a" (PyInt 1) (PyInt 1);
        mkRow 1 "b" (PyFloat S754_nan) (PyFloat S754_nan);
        mkRow 1 "c" (PyInt 2) (PyInt 2)]
  /\ ~ (forall lines separator root d n,
           build_and_total lines separator = Ok root ->
           node_at d n root -> siblings_non_increasing d n).
Proof.
  split; [vm_compute; reflexivity|].
  intros H.
  specialize (H ["a 1"; "b nan"; "c 2"] ";" _ 0%nat _ eq_refl (node_here _)).
  unfold siblings_non_increasing in H. vm_compute in H.
  inversion H as [|r l _ Hr]; subst.
  inversion Hr as [|r' l' _ Hr']; subst.
  inversion Hr' as [|r'' l'' Hc _]; subst.
  discriminate.
Qed.

(** *** Levels *)

Lemma build_loop_name (lines : list string) :
  forall root separator r,
    build_loop lines root separator = Ok r -> name r = name root.
Proof.
  induction lines as [|line rest IH]; intros root separator r; simpl.
  - now intros [= <-].
  - unfold insert_line.
    destruct (parse_line line) as [[stack_str count]|]; [|apply IH].
    destruct (frames _ _) as [stack|]; [|discriminate].
    destruct (add_stack root stack count) as [root'|] eqn:E; [|discriminate].
    intros H. rewrite (IH _ _ _ H). eapply add_stack_name; eassumption.
Qed.

Lemma rows_level_consistent (root : TrieNode) :
  level_consistent root (trie_to_nested_set root 0).
Proof.
  split; [|split; [|split]].
  - apply trie_to_nested_set_head.
  - intros r. split.
    + intros H. apply rows_are_nodes in H. exact H.
    + intros (d & n & Hn & ->). apply (row_in_rows d n root Hn 0).
  - intros pre r post k E Hr.
    destruct (parent_row_precedes root 0 pre r post k E Hr (Nat.le_0_l k))
      as (pre1 & pre2 & p & c & H1 & H2 & H3 & H4 & H5).
    rewrite Nat.sub_0_r in H3. exists pre1, pre2, p, c. auto.
  - intros pre r1 r2 post E.
    apply (steps_ok_adjacent pre post r1 r2 0). rewrite <- E.
    apply rows_steps. lia.
Qed.

(** C8: the output of a conversion is a nested set of the tree: its first
    row is that of the root named total, at level 0; its rows are those of
    the nodes, each at the level that is the number of the node's
    ancestors; a row at level n + 1 comes after the row at level n of its
    node's parent, with only rows of the parent's subtree in between; and
    no row is more than one level deeper than the row before it. *)
Theorem level_consistency (lines : list string) (separator : string)
  (rows : list Row) :
  convert_folded_to_grafana lines separator = Ok rows ->
  exists root,
    build_and_total lines separator = Ok root
    /\ name root = "total"
    /\ level_consistent root rows.
Proof.
  intros H. apply convert_rows in H. destruct H as (root & Hroot & ->).
  exists root. split; [assumption|]. split.
  - unfold build_and_total, build_trie in Hroot. inv_bind Hroot.
    destruct (calculate_totals_self _ _ Hroot) as [-> _].
    now rewrite (build_loop_name _ _ _ _ Ha).
  - apply rows_level_consistent.
Qed.

Lemma level_consistency_witness :
  exists root,
    build_and_total ["a;b;c 5"; "a;b;d 3"; "a;e 2"] ";" = Ok root
    /\ name root = "total"
    /\ level_consistent root
         [mkRow 0 "total" (PyInt 10) (PyInt 0);
          mkRow 1 "a" (PyInt 10) (PyInt 0);
          mkRow 2 "b" (PyInt 8) (PyInt 0);
          mkRow 3 "c" (PyInt 5) (PyInt 5);
          mkRow 3 "d" (PyInt 3) (PyInt 3);
          mkRow 2 "e" (PyInt 2) (PyInt 2)].
Proof.
  exact (level_consistency ["a;b;c 5"; "a;b;d 3"; "a;e 2"] ";" _ eq_refl).
Defined.

(** ** What the tree holds *)

Lemma dict_get_set_other {V : Type} (d : list (string * V)) (k k' : string)
  (v : V) :
  k <> k' -> dict_get (dict_set d k v) k' = dict_get d k'.
Proof.
  intros Hne. induction d as [|[k0 v0] d IH]; simpl.
  - destruct (String.eqb k k') eqn:E; [|reflexivity].
    apply String.eqb_eq in E. congruence.
  - destruct (String.eqb k0 k) eqn:E; simpl.
    + apply String.eqb_eq in E. subst k0.
      destruct (String.eqb k k') eqn:E'; [|reflexivity].
      apply String.eqb_eq in E'. congruence.
    + now rewrite IH.
Qed.

Lemma dict_get_None_keys {V : Type} (d : list (string * V)) (k : string) :
  dict_get d k = None <-> ~ In k (dict_keys d).
Proof.
  induction d as [|[k0 v0] d IH]; simpl; [tauto|].
  destruct (String.eqb k0 k) eqn:E.
  - apply String.eqb_eq in E. split; [discriminate | tauto].
  - apply String.eqb_neq in E. rewrite IH. tauto.
Qed.

Lemma stack_eqb_eq (p q : list string) : stack_eqb p q = true <-> p = q.
Proof.
  revert q. induction p as [|a p IH]; intros [|b q]; simpl;
    try (split; [discriminate | congruence]); [tauto|].
  rewrite andb_true_iff, String.eqb_eq, IH. split.
  - intros [-> ->]. reflexivity.
  - intros [= -> ->]. auto.
Qed.

Lemma add_stack_inv (node : TrieNode) (stack : list string) (count : pynum)
  (node' : TrieNode) :
  add_stack node stack count = Ok node' ->
  py_add (self_at node stack) count = Ok (self_at node' stack).
Proof.
  intros H. destruct (py_add (self_at node stack) count) as [v|e] eqn:E.
  - destruct (add_stack_Ok _ _ _ _ E) as (n1 & n & H1 & Hf & Hv).
    rewrite H in H1. injection H1 as <-.
    unfold self_at at 1. now rewrite Hf, Hv.
  - rewrite (add_stack_Raise _ _ _ _ E) in H. discriminate.
Qed.

(** Walking a stack changes the self value at the end of its own path
    only. *)
Lemma add_stack_self_other (stack : list string) :
  forall node count node' p,
    add_stack node stack count = Ok node' ->
    p <> stack ->
    self_at node' p = self_at node p.
Proof.
  induction stack as [|frame rest IH]; intros node count node' p H Hp;
    simpl in H; inv_bind H; injection H as <-.
  - destruct p as [|f p]; [congruence|]. reflexivity.
  - destruct p as [|f p]; [reflexivity|].
    rewrite !self_at_cons. cbn [children].
    destruct (String.eqb frame f) eqn:E.
    + apply String.eqb_eq in E. subst f.
      rewrite dict_get_set_same. eapply IH; [eassumption|congruence].
    + apply String.eqb_neq in E. now rewrite dict_get_set_other.
Qed.

Lemma counts_at_cons (p stack : list string) (c : pynum)
  (tr : list (list string * pynum)) :
  counts_at p ((stack, c) :: tr)
  = if stack_eqb p stack then c :: counts_at p tr else counts_at p tr.
Proof. unfold counts_at. simpl. now destruct (stack_eqb p stack). Qed.

Lemma build_loop_stacks (lines : list string) :
  forall root separator r,
    build_loop lines root separator = Ok r ->
    exists tr,
      line_stacks lines separator = Ok tr
      /\ forall p, add_all (self_at root p) (counts_at p tr)
                   = Ok (self_at r p).
Proof.
  induction lines as [|line rest IH]; intros root separator r H.
  - injection H as <-. exists []. split; reflexivity.
  - cbn [build_loop] in H. unfold insert_line in H. cbn [line_stacks].
    destruct (parse_line line) as [[stack_str count]|]; [|now apply IH].
    cbv zeta in *.
    destruct (frames stack_str (next_separator separator stack_str))
      as [stack|] eqn:Hf; [|discriminate].
    destruct (add_stack root stack count) as [root'|] eqn:Ha; [|discriminate].
    destruct (IH _ _ _ H) as (tr & Htr & Hsum).
    rewrite Htr. exists ((stack, count) :: tr). split; [reflexivity|].
    intros p. rewrite counts_at_cons.
    destruct (stack_eqb p stack) eqn:E.
    + apply stack_eqb_eq in E. subst p. cbn [add_all].
      rewrite (add_stack_inv _ _ _ _ Ha). apply Hsum.
    + rewrite <- (add_stack_self_other _ _ _ _ p Ha); [apply Hsum|].
      intros ->. rewrite (proj2 (stack_eqb_eq stack stack) eq_refl) in E.
      discriminate.
Qed.

(** X1: the self value at the end of every path is the sum, added from
    zero in input order, of the counts of the lines whose stack is that
    path; it is [0] on a path that is the stack of no line. *)
Theorem self_counts_are_sums (lines : list string) (separator : string)
  (root : TrieNode) :
  build_trie lines separator = Ok root ->
  exists tr,
    line_stacks lines separator = Ok tr
    /\ forall p, py_sum (counts_at p tr) = Ok (self_at root p).
Proof.
  intros H. destruct (build_loop_stacks _ _ _ _ H) as (tr & Htr & Hsum).
  exists tr. split; [assumption|]. intros p.
  specialize (Hsum p). now rewrite self_at_new_node in Hsum.
Qed.

Lemma self_counts_are_sums_witness :
  exists root tr,
    build_trie ["a;b 1"; "a 2.5"; "x"; "a;b 3"] ";" = Ok root
    /\ line_stacks ["a;b 1"; "a 2.5"; "x"; "a;b 3"] ";" = Ok tr
    /\ forall p, py_sum (counts_at p tr) = Ok (self_at root p).
Proof.
  destruct (self_counts_are_sums ["a;b 1"; "a 2.5"; "x"; "a;b 3"] ";" _
              eq_refl) as (tr & Htr & H).
  eexists. exists tr. split; [reflexivity|]. split; assumption.
Defined.

(** *** The nodes *)

Lemma find_node_new_node (frame : string) (p : list string) :
  find_node (new_node frame) p <> None <-> p = [].
Proof.
  destruct p; simpl; split; congruence.
Qed.

Lemma is_prefix_nil_r (p : list string) : is_prefix p [] = true <-> p = [].
Proof. destruct p; simpl; split; congruence. Qed.

Lemma add_stack_nodes (stack : list string) :
  forall node count node' p,
    add_stack node stack count = Ok node' ->
    (find_node node' p <> None
     <-> find_node node p <> None \/ is_prefix p stack = true).
Proof.
  induction stack as [|frame rest IH]; intros node count node' p H;
    simpl in H; inv_bind H; injection H as <-.
  - rewrite is_prefix_nil_r. destruct p as [|f p]; simpl.
    + split; [intros _; now right | congruence].
    + split; [tauto | intros [?|?]; [assumption | discriminate]].
  - destruct p as [|f p]; cbn [find_node is_prefix children].
    + split; [intros _; now right | congruence].
    + destruct (String.eqb frame f) eqn:E.
      * apply String.eqb_eq in E. subst f.
        rewrite dict_get_set_same, String.eqb_refl. cbn [andb].
        rewrite (IH _ _ _ p Ha).
        destruct (dict_get (children node) frame) as [c|]; [tauto|].
        rewrite find_node_new_node. split.
        -- intros [->|?]; right; [destruct rest; reflexivity | assumption].
        -- intros [?|?]; [congruence | now right].
      * apply String.eqb_neq in E.
        rewrite dict_get_set_other by assumption.
        assert (E' : String.eqb f frame = false)
          by (apply String.eqb_neq; congruence).
        rewrite E'. cbn [andb].
        split; [tauto | intros [?|?]; [assumption|discriminate]].
Qed.

Lemma build_loop_nodes (lines : list string) :
  forall root separator r,
    build_loop lines root separator = Ok r ->
    exists tr,
      line_stacks lines separator = Ok tr
      /\ forall p,
           find_node r p <> None
           <-> find_node root p <> None
               \/ exists stack c, In (stack, c) tr /\ is_prefix p stack = true.
Proof.
  induction lines as [|line rest IH]; intros root separator r H.
  - injection H as <-. exists []. split; [reflexivity|].
    intros p. split; [tauto | intros [?|(s & c & [] & _)]; assumption].
  - cbn [build_loop] in H. unfold insert_line in H. cbn [line_stacks].
    destruct (parse_line line) as [[stack_str count]|]; [|now apply IH].
    cbv zeta in *.
    destruct (frames stack_str (next_separator separator stack_str))
      as [stack|] eqn:Hf; [|discriminate].
    destruct (add_stack root stack count) as [root'|] eqn:Ha; [|discriminate].
    destruct (IH _ _ _ H) as (tr & Htr & Hn).
    rewrite Htr. exists ((stack, count) :: tr). split; [reflexivity|].
    intros p. rewrite Hn, (add_stack_nodes _ _ _ _ p Ha). split.
    + intros [[?|?]|(s & c & Hin & Hp)].
      * now left.
      * right. exists stack, count. split; [now left | assumption].
      * right. exists s, c. split; [now right | assumption].
    + intros [?|(s & c & [[= <- <-]|Hin] & Hp)].
      * left. now left.
      * left. now right.
      * right. eauto.
Qed.

(** X2: the tree has a node at the end of a path exactly when the path is
    empty (the root) or is the beginning of the stack of a line that is
    not skipped. *)
Theorem nodes_are_prefixes (lines : list string) (separator : string)
  (root : TrieNode) :
  build_trie lines separator = Ok root ->
  exists tr,
    line_stacks lines separator = Ok tr
    /\ forall p,
         find_node root p <> None
         <-> p = []
             \/ exists stack c, In (stack, c) tr /\ is_prefix p stack = true.
Proof.
  intros H. destruct (build_loop_nodes _ _ _ _ H) as (tr & Htr & Hn).
  exists tr. split; [assumption|]. intros p. rewrite Hn.
  rewrite find_node_new_node. tauto.
Qed.

Lemma nodes_are_prefixes_witness :
  exists root tr,
    build_trie ["a;b;c 1"; "d 2"] ";" = Ok root
    /\ line_stacks ["a;b;c 1"; "d 2"] ";" = Ok tr
    /\ forall p,
         find_node root p <> None
         <-> p = []
             \/ exists stack c, In (stack, c) tr /\ is_prefix p stack = true.
Proof.
  destruct (nodes_are_prefixes ["a;b;c 1"; "d 2"] ";" _ eq_refl)
    as (tr & Htr & H).
  eexists. exists tr. split; [reflexivity|]. split; assumption.
Defined.

(** ** Invariants of the tree *)

Lemma well_formed_node (nm : string) (cs : list (string * TrieNode))
  (sv tv : pynum) :
  well_formed (mkTrieNode nm cs sv tv)
  <-> NoDup (dict_keys cs)
      /\ Forall (fun kc => fst kc <> "" /\ name (snd kc) = fst kc
                           /\ well_formed (snd kc)) cs.
Proof.
  cbn [well_formed]. apply and_iff_compat_l.
  induction cs as [|[k c] cs IH].
  - split; [constructor | exact (fun _ => I)].
  - rewrite Forall_cons_iff, <- IH. reflexivity.
Qed.

Lemma NoDup_snoc {A : Type} (l : list A) (x : A) :
  NoDup l -> ~ In x l -> NoDup (l ++ [x]).
Proof.
  induction 1 as [|y l Hy Hl IH]; intros Hx; simpl.
  - constructor; [tauto | constructor].
  - constructor.
    + rewrite in_app_iff. simpl in *. intuition congruence.
    + apply IH. simpl in Hx. tauto.
Qed.

Lemma well_formed_new_node (frame : string) : well_formed (new_node frame).
Proof. apply well_formed_node. split; constructor. Qed.

Lemma add_stack_well_formed (stack : list string) :
  forall node count node',
    well_formed node ->
    Forall (fun f => f <> "") stack ->
    add_stack node stack count = Ok node' ->
    well_formed node'.
Proof.
  induction stack as [|frame rest IH];
    intros [nm cs sv tv] count node' Hwf Hst H;
    simpl in H; inv_bind H; injection H as <-.
  - apply well_formed_node. now apply well_formed_node in Hwf.
  - apply well_formed_node in Hwf. destruct Hwf as [Hnd Hcs].
    inversion Hst as [|? ? Hframe Hrest]; subst.
    rename a into child'.
    assert (Hchild : well_formed child' /\ name child' = frame).
    { destruct (dict_get cs frame) as [c|] eqn:Hget.
      - rewrite Forall_forall in Hcs.
        destruct (Hcs _ (dict_get_In _ _ _ Hget)) as (_ & Hn & Hc).
        split; [eapply IH; eassumption|].
        rewrite (add_stack_name _ _ _ _ Ha). exact Hn.
      - split; [eapply IH; [apply well_formed_new_node| |]; eassumption|].
        now rewrite (add_stack_name _ _ _ _ Ha). }
    destruct Hchild as [Hwf' Hname'].
    apply well_formed_node. split.
    + rewrite dict_keys_set.
      destruct (dict_get cs frame) eqn:Hget.
      * now rewrite app_nil_r.
      * apply NoDup_snoc; [assumption|]. now apply dict_get_None_keys.
    + destruct (dict_get cs frame) as [c|] eqn:Hget.
      * destruct (dict_set_present cs frame child' c Hget)
          as (d1 & d2 & E & -> & _).
        rewrite E in Hcs. apply Forall_app in Hcs. destruct Hcs as [H1 H2].
        inversion H2; subst. apply Forall_app. split; [assumption|].
        constructor; [|assumption]. simpl. auto.
      * rewrite (dict_set_absent _ _ _ Hget). apply Forall_app.
        split; [assumption|]. constructor; [|constructor]. simpl. auto.
Qed.

Lemma frames_nonempty (stack_str separator : string) (stack : list string) :
  frames stack_str separator = Ok stack -> Forall (fun f => f <> "") stack.
Proof.
  unfold frames. intros H. inv_bind H. injection H as <-.
  apply Forall_forall. intros f Hf. apply filter_In in Hf.
  destruct Hf as [_ Hf]. intros ->. discriminate.
Qed.

Lemma build_loop_well_formed (lines : list string) :
  forall root separator r,
    well_formed root ->
    build_loop lines root separator = Ok r -> well_formed r.
Proof.
  induction lines as [|line rest IH]; intros root separator r Hwf H.
  - now injection H as <-.
  - cbn [build_loop] in H. unfold insert_line in H.
    destruct (parse_line line) as [[stack_str count]|]; [|eauto].
    cbv zeta in H.
    destruct (frames stack_str (next_separator separator stack_str))
      as [stack|] eqn:Hf; [|discriminate].
    destruct (add_stack root stack count) as [root'|] eqn:Ha; [|discriminate].
    eapply IH; [|eassumption].
    eapply add_stack_well_formed; [eassumption| |eassumption].
    eapply frames_nonempty; eassumption.
Qed.

Lemma Forall2_keys (cs cs' : list (string * TrieNode))
  (R : TrieNode -> TrieNode -> Prop) :
  Forall2 (fun kc kc' => fst kc = fst kc' /\ R (snd kc) (snd kc')) cs cs' ->
  dict_keys cs' = dict_keys cs.
Proof.
  induction 1 as [|kc kc' cs cs' [Hk _] _ IH]; simpl; congruence.
Qed.

Lemma calculate_totals_well_formed (n : TrieNode) :
  forall n', calculate_totals n = Ok n' -> well_formed n -> well_formed n'.
Proof.
  induction n as [nm cs sv tv IH] using TrieNode_ind.
  intros n' H Hwf.
  apply calculate_totals_node in H. destruct H as (cs' & total & Hl & ->).
  apply children_loop_Ok in Hl. destruct Hl as [HF _].
  apply well_formed_node in Hwf. destruct Hwf as [Hnd Hcs].
  apply well_formed_node. split.
  - now rewrite (Forall2_keys _ _ (fun c c' => calculate_totals c = Ok c') HF).
  - clear Hnd. induction HF as [|kc kc' cs cs' [Hk Hc] HF IHF];
      [constructor|].
    inversion IH as [|? ? IHc IHcs]; subst.
    inversion Hcs as [|? ? (Hk1 & Hk2 & Hk3) Hcs']; subst.
    constructor; [|auto].
    destruct (calculate_totals_self _ _ Hc) as [Hn _].
    rewrite <- Hk, Hn. auto.
Qed.

Lemma well_formed_below (d : nat) (m t : TrieNode) :
  node_at d m t -> well_formed t ->
  well_formed m /\ (d <> 0%nat -> name m <> "").
Proof.
  induction 1 as [t|d m c t Hc Hm IH]; intros Hwf.
  - split; [assumption | congruence].
  - destruct t as [nm cs sv tv]. apply well_formed_node in Hwf.
    destruct Hwf as [_ Hcs]. simpl in Hc. unfold dict_values in Hc.
    apply in_map_iff in Hc. destruct Hc as (kc & <- & Hin).
    rewrite Forall_forall in Hcs. destruct (Hcs kc Hin) as (Hk & Hn & Hw).
    destruct (IH Hw) as [Hwm Hname]. split; [assumption|].
    intros _. destruct d as [|d].
    + inversion Hm; subst. congruence.
    + apply Hname. congruence.
Qed.

Lemma build_and_total_well_formed (lines : list string) (separator : string)
  (root : TrieNode) :
  build_and_total lines separator = Ok root -> well_formed root.
Proof.
  unfold build_and_total, build_trie. intros H. inv_bind H.
  eapply calculate_totals_well_formed; [eassumption|].
  eapply build_loop_well_formed; [|eassumption].
  apply well_formed_new_node.
Qed.

(** X3: in the tree of a conversion the children of every node have keys
    that are distinct and not empty, and every child is named by its key;
    so every row after the first has a label that is not empty. *)
Theorem tree_is_well_formed :
  (forall lines separator root d n,
      build_and_total lines separator = Ok root ->
      node_at d n root ->
      NoDup (dict_keys (children n))
      /\ forall k c, In (k, c) (children n) -> k <> "" /\ name c = k)
  /\ (forall lines separator rows r,
         convert_folded_to_grafana lines separator = Ok rows ->
         In r (tl rows) -> label r <> "").
Proof.
  split.
  - intros lines separator root d n H Hn.
    apply build_and_total_well_formed in H.
    destruct (well_formed_below _ _ _ Hn H) as [Hwf _].
    destruct n as [nm cs sv tv]. apply well_formed_node in Hwf.
    destruct Hwf as [Hnd Hcs]. split; [assumption|].
    intros k c Hin. rewrite Forall_forall in Hcs.
    destruct (Hcs _ Hin) as (H1 & H2 & _). auto.
  - intros lines separator rows r H Hr.
    apply convert_rows in H. destruct H as (root & Hroot & ->).
    apply build_and_total_well_formed in Hroot.
    assert (Hlvl : (0 < level r)%nat).
    { pose proof (rows_below root 0) as Hb. rewrite Forall_forall in Hb.
      auto. }
    assert (Hin : In r (trie_to_nested_set root 0)).
    { destruct (trie_to_nested_set root 0); [destruct Hr | now right]. }
    apply rows_are_nodes in Hin. destruct Hin as (d & m & Hm & ->).
    simpl in *. destruct (well_formed_below _ _ _ Hm Hroot) as [_ Hname].
    apply Hname. lia.
Qed.

Lemma tree_is_well_formed_witness :
  NoDup ["a"; "e"]
  /\ forall k c,
       In (k, c) [("a", mkTrieNode "a" [] (PyInt 3) (PyInt 3));
                  ("e", mkTrieNode "e" [] (PyInt 2) (PyInt 2))] ->
       k <> "" /\ name c = k.
Proof.
  exact (proj1 tree_is_well_formed ["a 1"; "e 2"; "a 2"] ";" _ 0%nat _
           eq_refl (node_here _)).
Defined.

(** ** Totals as sums over the lines *)

Lemma subtree_sum_new_node (frame : string) (p : list string) :
  subtree_sum (new_node frame) p = 0.
Proof. destruct p; reflexivity. Qed.

Lemma int_tree_child (nm : string) (cs : list (string * TrieNode))
  (sv tv : pynum) (k : string) (c : TrieNode) :
  int_tree (mkTrieNode nm cs sv tv) = true ->
  dict_get cs k = Some c -> int_tree c = true.
Proof.
  intros Hint Hget. apply int_tree_node in Hint. destruct Hint as [_ Hcs].
  rewrite Forall_forall in Hcs. apply (Hcs (k, c)). now apply dict_get_In.
Qed.

Lemma subtree_sum_add (stack : list string) :
  forall node c node' p,
    int_tree node = true ->
    add_stack node stack (PyInt c) = Ok node' ->
    subtree_sum node' p
    = subtree_sum node p + (if is_prefix p stack then c else 0).
Proof.
  induction stack as [|frame rest IH]; intros node c node' p Hint H.
  - destruct (add_stack_int [] node c Hint) as (n1 & H1 & _ & Hsum).
    rewrite H in H1. injection H1 as <-.
    destruct p as [|f p].
    + exact Hsum.
    + simpl in H. inv_bind H. injection H as <-.
      unfold subtree_sum. simpl. lia.
  - destruct (add_stack_int (frame :: rest) node c Hint)
      as (n1 & H1 & _ & Hsum).
    rewrite H in H1. injection H1 as <-.
    destruct p as [|f p]; [exact Hsum|].
    simpl in H. inv_bind H. rename a into child'. injection H as <-.
    unfold subtree_sum. cbn [find_node is_prefix children].
    destruct (String.eqb f frame) eqn:E.
    + apply String.eqb_eq in E. subst f.
      rewrite dict_get_set_same. cbn [andb].
      fold (subtree_sum child' p).
      destruct node as [nm cs sv tv]. cbn [children] in *.
      destruct (dict_get cs frame) as [c0|] eqn:Hget.
      * fold (subtree_sum c0 p). eapply IH; [|eassumption].
        eapply int_tree_child; eassumption.
      * rewrite (IH (new_node frame) _ _ p eq_refl Ha), subtree_sum_new_node.
        reflexivity.
    + apply String.eqb_neq in E.
      rewrite dict_get_set_other by congruence. cbn [andb]. lia.
Qed.

Lemma counts_under_cons (p stack : list string) (c : pynum)
  (tr : list (list string * pynum)) :
  counts_under p ((stack, c) :: tr)
  = if is_prefix p stack then c :: counts_under p tr else counts_under p tr.
Proof. unfold counts_under. simpl. now destruct (is_prefix p stack). Qed.

Lemma build_loop_subtree_sums (lines : list string) :
  forall root separator r,
    int_counts lines ->
    int_tree root = true ->
    build_loop lines root separator = Ok r ->
    exists tr,
      line_stacks lines separator = Ok tr
      /\ forall p, subtree_sum r p
                   = subtree_sum root p
                     + zsum (map int_of (counts_under p tr)).
Proof.
  induction lines as [|line rest IH]; intros root separator r Hc Hint H.
  - injection H as <-. exists []. split; [reflexivity|].
    intros p. unfold zsum. simpl. lia.
  - apply int_counts_cons in Hc. destruct Hc as [Hrest Hline].
    cbn [build_loop] in H. unfold insert_line in H. cbn [line_stacks].
    destruct (parse_line line) as [[stack_str count]|]; [|now apply IH].
    destruct (Hline _ _ eq_refl) as [c ->]. cbv zeta in *.
    destruct (frames stack_str (next_separator separator stack_str))
      as [stack|] eqn:Hf; [|discriminate].
    destruct (add_stack root stack (PyInt c)) as [root'|] eqn:Ha;
      [|discriminate].
    assert (Hint' : int_tree root' = true).
    { destruct (add_stack_int stack root c Hint) as (n1 & H1 & Hn1 & _).
      congruence. }
    destruct (IH _ _ _ Hrest Hint' H) as (tr & Htr & Hsum).
    rewrite Htr. exists ((stack, PyInt c) :: tr). split; [reflexivity|].
    intros p. rewrite Hsum, (subtree_sum_add _ _ _ _ p Hint Ha).
    rewrite counts_under_cons.
    destruct (is_prefix p stack); [|lia].
    cbn [map int_of]. unfold zsum at 2. cbn [fold_right].
    fold (zsum (map int_of (counts_under p tr))). lia.
Qed.

Lemma Forall2_dict_get (cs cs' : list (string * TrieNode))
  (R : TrieNode -> TrieNode -> Prop) (k : string) :
  Forall2 (fun kc kc' => fst kc = fst kc' /\ R (snd kc) (snd kc')) cs cs' ->
  match dict_get cs k, dict_get cs' k with
  | Some c, Some c' => R c c'
  | None, None => True
  | _, _ => False
  end.
Proof.
  induction 1 as [|[k0 c0] [k1 c1] cs cs' [Hk HR] _ IH]; simpl; [exact I|].
  simpl in Hk, HR. subst k1. destruct (String.eqb k0 k); assumption.
Qed.

(** [calculate_totals] keeps the paths: the node at the end of a path is
    the node that was there, with its totals. *)
Lemma find_node_totals (p : list string) :
  forall n n',
    calculate_totals n = Ok n' ->
    match find_node n p, find_node n' p with
    | Some m, Some m' => calculate_totals m = Ok m'
    | None, None => True
    | _, _ => False
    end.
Proof.
  induction p as [|f p IH]; intros n n' H; [exact H|].
  destruct n as [nm cs sv tv].
  apply calculate_totals_node in H. destruct H as (cs' & total & Hl & ->).
  apply children_loop_Ok in Hl. destruct Hl as [HF _].
  cbn [find_node children].
  pose proof (Forall2_dict_get cs cs'
                (fun c c' => calculate_totals c = Ok c') f HF) as Hget.
  destruct (dict_get cs f) as [c|], (dict_get cs' f) as [c'|];
    try contradiction; [|exact I].
  now apply IH.
Qed.

Lemma int_tree_find_node (p : list string) :
  forall n m, int_tree n = true -> find_node n p = Some m ->
              int_tree m = true.
Proof.
  induction p as [|f p IH]; intros n m Hint H; simpl in H.
  - now injection H as <-.
  - destruct n as [nm cs sv tv]. cbn [children] in H.
    destruct (dict_get cs f) as [c|] eqn:Hget; [|discriminate].
    eapply IH; [|eassumption]. eapply int_tree_child; eassumption.
Qed.

Lemma total_of_subtree (r root : TrieNode) :
  int_tree r = true ->
  calculate_totals r = Ok root ->
  forall p n,
    find_node root p = Some n -> total_value n = PyInt (subtree_sum r p).
Proof.
  intros Hint H p n' Hn'.
  pose proof (find_node_totals p r root H) as Hf. rewrite Hn' in Hf.
  unfold subtree_sum.
  destruct (find_node r p) as [n|] eqn:Hn; [|contradiction].
  pose proof (int_tree_find_node p r n Hint Hn) as Hintn.
  destruct (calculate_totals_int n Hintn) as (n1 & Hn1 & Ht).
  rewrite Hf in Hn1. injection Hn1 as <-. exact Ht.
Qed.

(** X4: when every count of the input is an integer, the total of the
    node at the end of a path is the sum of the counts of the lines whose
    stack begins with that path. *)
Theorem totals_are_prefix_sums (lines : list string) (separator : string)
  (root : TrieNode) :
  int_counts lines ->
  build_and_total lines separator = Ok root ->
  exists tr,
    line_stacks lines separator = Ok tr
    /\ forall p n,
         find_node root p = Some n ->
         total_value n = PyInt (zsum (map int_of (counts_under p tr))).
Proof.
  intros Hc H. unfold build_and_total, build_trie in H. inv_bind H.
  rename a into r.
  destruct (build_loop_int lines (new_node "total") separator Hc eq_refl)
    as [Hpart _].
  destruct (Hpart r Ha) as (Hint & _ & _).
  destruct (build_loop_subtree_sums lines (new_node "total") _ _ Hc eq_refl Ha)
    as (tr & Htr & Hsum).
  exists tr. split; [assumption|]. intros p n Hn.
  rewrite (total_of_subtree r root Hint H p n Hn), Hsum.
  now rewrite subtree_sum_new_node.
Qed.

Lemma totals_are_prefix_sums_witness :
  exists root tr,
    build_and_total ["a;b 1"; "a;c 2"; "d 4"; "a 8"] ";" = Ok root
    /\ line_stacks ["a;b 1"; "a;c 2"; "d 4"; "a 8"] ";" = Ok tr
    /\ forall p n,
         find_node root p = Some n ->
         total_value n = PyInt (zsum (map int_of (counts_under p tr))).
Proof.
  assert (Hc : int_counts ["a;b 1"; "a;c 2"; "d 4"; "a 8"])
    by (vm_compute; repeat constructor).
  destruct (totals_are_prefix_sums ["a;b 1"; "a;c 2"; "d 4"; "a 8"] ";" _
              Hc eq_refl) as (tr & Htr & H).
  eexists. exists tr. split; [reflexivity|]. split; assumption.
Defined.

(** ** [calculate_totals] again *)






(** ** One row for every node *)

Lemma insert_desc_perm {A : Type} (key : A -> pynum) (x : A) (l : list A) :
  Permutation (insert_desc key x l) (x :: l).
Proof.
  induction l as [|y l IH]; simpl; [reflexivity|].
  destruct (py_lt (key x) (key y)); [|reflexivity].
  rewrite IH. apply perm_swap.
Qed.

(** The sort loses no element and repeats none. *)
Lemma sorted_desc_perm {A : Type} (key : A -> pynum) (l : list A) :
  Permutation (sorted_desc key l) l.
Proof.
  induction l as [|x l IH]; [reflexivity|].
  cbn [sorted_desc fold_right]. fold (sorted_desc key l).
  rewrite insert_desc_perm. now constructor.
Qed.

Lemma rows_length (n : TrieNode) :
  forall lvl, length (trie_to_nested_set n lvl) = node_count n.
Proof.
  induction n as [nm cs sv tv IH] using TrieNode_ind. intros lvl.
  rewrite trie_to_nested_set_eq. cbn [length node_count children]. f_equal.
  rewrite (Permutation_length
             (Permutation_flat_map _ (sorted_desc_perm total_value _))).
  rewrite length_flat_map. unfold dict_values. rewrite map_map. f_equal.
  apply map_ext_in. intros kc Hin. rewrite Forall_forall in IH. now apply IH.
Qed.

Lemma paths_length (n : TrieNode) : length (paths n) = node_count n.
Proof.
  induction n as [nm cs sv tv IH] using TrieNode_ind.
  cbn [paths node_count length]. f_equal.
  rewrite length_flat_map. f_equal. apply map_ext_in. intros kc Hin.
  rewrite length_map. rewrite Forall_forall in IH. now apply IH.
Qed.

Lemma paths_node (nm : string) (cs : list (string * TrieNode))
  (sv tv : pynum) (f : string) (p : list string) :
  In (f :: p) (paths (mkTrieNode nm cs sv tv))
  <-> exists c, In (f, c) cs /\ In p (paths c).
Proof.
  cbn [paths]. split.
  - intros [H|H]; [discriminate|]. apply in_flat_map in H.
    destruct H as ([k c] & Hin & Hp). apply in_map_iff in Hp.
    destruct Hp as (q & [= <- <-] & Hq). eauto.
  - intros (c & Hin & Hp). right. apply in_flat_map.
    exists (f, c). split; [assumption|]. now apply in_map.
Qed.

Lemma paths_NoDup (n : TrieNode) : well_formed n -> NoDup (paths n).
Proof.
  induction n as [nm cs sv tv IH] using TrieNode_ind. intros Hwf.
  apply well_formed_node in Hwf. destruct Hwf as [Hnd Hcs].
  cbn [paths]. constructor.
  - intros H. apply in_flat_map in H. destruct H as (kc & _ & H).
    apply in_map_iff in H. destruct H as (q & Hq & _). discriminate.
  - induction cs as [|[k c] cs IHcs]; [constructor|].
    inversion IH as [|? ? IHc IH']; subst.
    inversion Hcs as [|? ? (_ & _ & Hc) Hcs']; subst.
    unfold dict_keys in Hnd. cbn [map fst] in Hnd.
    inversion Hnd as [|? ? Hk Hnd']; subst.
    cbn [flat_map fst snd]. apply NoDup_app.
    + apply Finite.Injective_map_NoDup; [|now apply IHc].
      intros a b [= ->]. reflexivity.
    + now apply IHcs.
    + intros q Hq Hq'. apply in_map_iff in Hq.
      destruct Hq as (q0 & <- & _). apply in_flat_map in Hq'.
      destruct Hq' as ([k' c'] & Hin & Hq'). apply in_map_iff in Hq'.
      destruct Hq' as (q1 & [= -> _] & _).
      apply Hk. apply (in_map fst) in Hin. exact Hin.
Qed.

Lemma dict_get_NoDup {V : Type} (d : list (string * V)) (k : string)
  (v : V) :
  NoDup (dict_keys d) -> In (k, v) d -> dict_get d k = Some v.
Proof.
  induction d as [|[k0 v0] d IH]; simpl; [tauto|].
  intros Hnd Hin. inversion Hnd as [|? ? Hk Hnd']; subst.
  destruct Hin as [[= -> ->]|Hin].
  - now rewrite String.eqb_refl.
  - destruct (String.eqb k0 k) eqn:E; [|auto].
    apply String.eqb_eq in E. subst k0.
    exfalso. apply Hk. apply (in_map fst) in Hin. exact Hin.
Qed.

(** In a well formed tree the paths are those that [find_node] follows. *)
Lemma paths_find_node (p : list string) :
  forall n, well_formed n -> (In p (paths n) <-> find_node n p <> None).
Proof.
  induction p as [|f p IH]; intros [nm cs sv tv] Hwf.
  - cbn [paths find_node]. split; [discriminate | now left].
  - rewrite paths_node. cbn [find_node children].
    apply well_formed_node in Hwf. destruct Hwf as [Hnd Hcs].
    rewrite Forall_forall in Hcs. split.
    + intros (c & Hin & Hp). rewrite (dict_get_NoDup _ _ _ Hnd Hin).
      destruct (Hcs _ Hin) as (_ & _ & Hc). now apply IH.
    + destruct (dict_get cs f) as [c|] eqn:Hget; [|congruence].
      intros H. apply dict_get_In in Hget. exists c. split; [assumption|].
      destruct (Hcs _ Hget) as (_ & _ & Hc). now apply IH.
Qed.

(** X6: the output has exactly one row for every node, and the nodes are
    the root and one node for every distinct, not empty, beginning of the
    stack of a line: the rows are as many as the paths of a list without
    duplicates that holds exactly the empty path and those beginnings. *)
Theorem one_row_per_prefix (lines : list string) (separator : string)
  (rows : list Row) :
  convert_folded_to_grafana lines separator = Ok rows ->
  exists tr ps,
    line_stacks lines separator = Ok tr
    /\ NoDup ps
    /\ (forall p,
           In p ps
           <-> p = []
               \/ exists stack c,
                    In (stack, c) tr /\ is_prefix p stack = true)
    /\ length rows = length ps.
Proof.
  intros H. apply convert_rows in H. destruct H as (root & Hroot & ->).
  pose proof (build_and_total_well_formed _ _ _ Hroot) as Hwf.
  unfold build_and_total in Hroot. inv_bind Hroot. rename a into r.
  destruct (build_loop_nodes lines (new_node "total") separator r Ha)
    as (tr & Htr & Hn).
  exists tr, (paths root). split; [assumption|].
  split; [now apply paths_NoDup|]. split.
  - intros p. rewrite (paths_find_node p root Hwf).
    specialize (Hn p). rewrite find_node_new_node in Hn.
    assert (Hn' : find_node r p <> None
                  <-> p = []
                      \/ exists stack c,
                           In (stack, c) tr /\ is_prefix p stack = true)
      by tauto.
    rewrite <- Hn'.
    pose proof (find_node_totals p r root Hroot) as Hf.
    destruct (find_node r p), (find_node root p); try contradiction;
      split; congruence.
  - now rewrite rows_length, paths_length.
Qed.

Lemma one_row_per_prefix_witness :
  exists tr ps,
    line_stacks ["a;b 1"; "a;c 2"; "a;b 3"] ";" = Ok tr
    /\ NoDup ps
    /\ (forall p,
           In p ps
           <-> p = []
               \/ exists stack c,
                    In (stack, c) tr /\ is_prefix p stack = true)
    /\ length [mkRow 0 "total" (PyInt 6) (PyInt 0);
               mkRow 1 "a" (PyInt 6) (PyInt 0);
               mkRow 2 "b" (PyInt 4) (PyInt 4);
               mkRow 2 "c" (PyInt 2) (PyInt 2)] = length ps.
Proof.
  exact (one_row_per_prefix ["a;b 1"; "a;c 2"; "a;b 3"] ";" _ eq_refl).
Defined.

(** ** The block of a node *)

Lemma node_block_end (d : nat) (m n : TrieNode) :
  node_at d m n ->
  forall lvl, exists pre post,
    trie_to_nested_set n lvl
    = (pre ++ trie_to_nested_set m (lvl + d) ++ post)%list
    /\ match post with
       | [] => True
       | r :: _ => (level r <= lvl + d)%nat
       end.
Proof.
  induction 1 as [t|d m c t Hc Hm IH]; intros lvl.
  - exists [], []. rewrite Nat.add_0_r, app_nil_r. split; [reflexivity|exact I].
  - rewrite trie_to_nested_set_eq.
    apply (sorted_desc_In total_value) in Hc.
    apply in_split in Hc. destruct Hc as (l1 & l2 & ->).
    destruct (IH (S lvl)) as (pre & post & E & Hpost).
    rewrite flat_map_app. cbn [flat_map]. rewrite E.
    replace (lvl + S d)%nat with (S lvl + d)%nat by lia.
    exists (row_of lvl t
            :: flat_map (fun child => trie_to_nested_set child (S lvl)) l1
            ++ pre)%list,
      (post ++ flat_map (fun child => trie_to_nested_set child (S lvl)) l2)%list.
    split.
    + cbn [app]. f_equal. now rewrite <- !app_assoc.
    + destruct post as [|r post]; [|exact Hpost].
      cbn [app]. destruct l2 as [|c2 l2]; [exact I|].
      cbn [flat_map].
      destruct (trie_to_nested_set_head c2 (S lvl)) as [rest ->].
      simpl. lia.
Qed.

(** X7: the rows are a nested set.  The rows of the descendants of a node
    are the run that follows the node's row, all at deeper levels, and the
    run ends where the output ends or at a row that is not deeper than the
    node's. *)
Theorem descendants_follow (lines : list string) (separator : string)
  (rows : list Row) :
  convert_folded_to_grafana lines separator = Ok rows ->
  exists root,
    build_and_total lines separator = Ok root
    /\ forall d n,
         node_at d n root ->
         exists pre sub post,
           rows = (pre ++ row_of d n :: sub ++ post)%list
           /\ Forall (fun r => (d < level r)%nat) sub
           /\ (forall r, In r sub
                         <-> exists d' m, node_at (S d') m n
                                          /\ r = row_of (d + S d') m)
           /\ match post with
              | [] => True
              | r :: _ => (level r <= d)%nat
              end.
Proof.
  intros H. apply convert_rows in H. destruct H as (root & Hroot & ->).
  exists root. split; [assumption|]. intros d n Hn.
  destruct (node_block_end d n root Hn 0) as (pre & post & E & Hpost).
  cbn [Nat.add] in E, Hpost.
  pose proof (rows_below n d) as Hb.
  destruct (trie_to_nested_set_head n d) as [sub Esub].
  rewrite Esub in *. cbn [tl] in Hb.
  exists pre, sub, post. split; [exact E|]. split; [exact Hb|].
  split; [|exact Hpost].
  intros r. split.
  - intros Hr.
    assert (Hin : In r (trie_to_nested_set n d))
      by (rewrite Esub; now right).
    apply rows_are_nodes in Hin. destruct Hin as (d' & m & Hm & ->).
    rewrite Forall_forall in Hb. specialize (Hb _ Hr). simpl in Hb.
    destruct d' as [|d']; [lia|]. eauto.
  - intros (d' & m & Hm & ->).
    pose proof (row_in_rows _ _ _ Hm d) as Hin. rewrite Esub in Hin.
    destruct Hin as [Hin|Hin]; [|assumption].
    apply (f_equal level) in Hin. simpl in Hin. lia.
Qed.

Lemma descendants_follow_witness :
  exists root,
    build_and_total ["a;b 1"; "c 2"] ";" = Ok root
    /\ forall d n,
         node_at d n root ->
         exists pre sub post,
           [mkRow 0 "total" (PyInt 3) (PyInt 0);
            mkRow 1 "c" (PyInt 2) (PyInt 2);
            mkRow 1 "a" (PyInt 1) (PyInt 0);
            mkRow 2 "b" (PyInt 1) (PyInt 1)]
           = (pre ++ row_of d n :: sub ++ post)%list
           /\ Forall (fun r => (d < level r)%nat) sub
           /\ (forall r, In r sub
                         <-> exists d' m, node_at (S d') m n
                                          /\ r = row_of (d + S d') m)
           /\ match post with
              | [] => True
              | r :: _ => (level r <= d)%nat
              end.
Proof.
  exact (descendants_follow ["a;b 1"; "c 2"] ";" _ eq_refl).
Defined.

(** ** Exceptions *)

Lemma py_add_Raise (a b : pynum) (e : exn) :
  py_add a b = Raise e -> e = OverflowError.
Proof.
  destruct a as [x|f], b as [y|g]; simpl; try discriminate;
    unfold float_of_int;
    destruct (binary_normalize prec emax _ 0 false); simpl;
    try discriminate; now intros [= <-].
Qed.

Lemma add_stack_Raise_inv (node : TrieNode) (stack : list string)
  (count : pynum) (e : exn) :
  add_stack node stack count = Raise e -> e = OverflowError.
Proof.
  intros H. destruct (py_add (self_at node stack) count) as [v|e'] eqn:E.
  - destruct (add_stack_Ok _ _ _ _ E) as (n1 & n & H1 & _). congruence.
  - rewrite (add_stack_Raise _ _ _ _ E) in H. injection H as <-.
    eapply py_add_Raise; eassumption.
Qed.

Lemma children_loop_Raise (cs : list (string * TrieNode)) :
  Forall (fun kc => forall e, calculate_totals (snd kc) = Raise e ->
                              e = OverflowError) cs ->
  forall total e,
    children_loop calculate_totals cs total = Raise e -> e = OverflowError.
Proof.
  induction 1 as [|[k c] cs Hc _ IH]; intros total e H; simpl in H;
    [discriminate|].
  simpl in Hc. destruct (calculate_totals c) as [c'|e1] eqn:Ec; simpl in H.
  - destruct (py_add total (total_value c')) as [t|e2] eqn:Et; simpl in H.
    + destruct (children_loop calculate_totals cs t) as [[cs' t']|e3] eqn:El;
        simpl in H; [discriminate|]. injection H as <-. eauto.
    + injection H as <-. eapply py_add_Raise; eassumption.
  - injection H as <-. auto.
Qed.

Lemma calculate_totals_Raise (n : TrieNode) :
  forall e, calculate_totals n = Raise e -> e = OverflowError.
Proof.
  induction n as [nm cs sv tv IH] using TrieNode_ind. intros e H.
  cbn [calculate_totals] in H.
  destruct (children_loop calculate_totals cs sv) as [[cs' t]|e1] eqn:El;
    simpl in H; [discriminate|].
  injection H as <-. eapply children_loop_Raise; eassumption.
Qed.

Lemma frames_Raise (stack_str separator : string) (e : exn) :
  frames stack_str separator = Raise e -> e = ValueError /\ separator = "".
Proof.
  unfold frames, PyStr.split. destruct separator; simpl.
  - now intros [= <-].
  - discriminate.
Qed.

Lemma build_loop_no_ValueError (lines : list string) :
  forall root separator,
    separator <> "" ->
    build_loop lines root separator <> Raise ValueError.
Proof.
  induction lines as [|line rest IH]; intros root separator Hne;
    [discriminate|].
  cbn [build_loop]. unfold insert_line.
  destruct (parse_line line) as [[stack_str count]|]; [|now apply IH].
  cbv zeta.
  pose proof (next_separator_nonempty separator stack_str Hne) as Hne'.
  destruct (frames stack_str (next_separator separator stack_str))
    as [stack|e] eqn:Hf.
  - destruct (add_stack root stack count) as [root'|e] eqn:Ha.
    + now apply IH.
    + apply add_stack_Raise_inv in Ha. subst e. discriminate.
  - apply frames_Raise in Hf. tauto.
Qed.

Lemma slash_detected_parse (line stack_str : string) (count : pynum) :
  parse_line line = Some (stack_str, count) ->
  next_separator "" stack_str = (if slash_detected line then "/" else "").
Proof.
  intros H. unfold slash_detected, next_separator. now rewrite H.
Qed.

Lemma build_loop_ValueError (lines : list string) :
  forall root,
    build_loop lines root "" = Raise ValueError
    <-> exists pre line post,
          lines = (pre ++ line :: post)%list
          /\ Forall (fun l => parse_line l = None) pre
          /\ parse_line line <> None
          /\ slash_detected line = false.
Proof.
  induction lines as [|line rest IH]; intros root.
  - split; [discriminate|]. intros (pre & l & post & E & _).
    destruct pre; discriminate.
  - cbn [build_loop]. unfold insert_line.
    destruct (parse_line line) as [[stack_str count]|] eqn:Hp.
    + cbv zeta. rewrite (slash_detected_parse _ _ _ Hp).
      destruct (slash_detected line) eqn:Hd.
      * split.
        -- destruct (frames stack_str "/") as [stack|e] eqn:Hf.
           ++ destruct (add_stack root stack count) as [root'|e] eqn:Ha.
              ** intros H. exfalso.
                 now apply (build_loop_no_ValueError rest root' "/").
              ** apply add_stack_Raise_inv in Ha. subst e. discriminate.
           ++ apply frames_Raise in Hf. destruct Hf; discriminate.
        -- intros ([|l pre] & l' & post & E & Hpre & Hl & Hd').
           ++ injection E as <- _. congruence.
           ++ injection E as <- _. inversion Hpre; subst. congruence.
      * split; [|reflexivity]. intros _.
        exists [], line, rest. repeat split; auto. congruence.
    + rewrite IH. split.
      * intros (pre & l & post & -> & Hpre & Hl & Hd).
        exists (line :: pre), l, post. repeat split; auto.
      * intros ([|l0 pre] & l & post & E & Hpre & Hl & Hd).
        -- injection E as <- _. congruence.
        -- injection E as <- ->. inversion Hpre; subst.
           exists pre, l, post. repeat split; auto.
Qed.

Lemma build_loop_int_no_Overflow (lines : list string) :
  forall root separator,
    int_counts lines ->
    int_tree root = true ->
    build_loop lines root separator <> Raise OverflowError.
Proof.
  induction lines as [|line rest IH]; intros root separator Hc Hint;
    [discriminate|].
  apply int_counts_cons in Hc. destruct Hc as [Hrest Hline].
  cbn [build_loop]. unfold insert_line.
  destruct (parse_line line) as [[stack_str count]|]; [|now apply IH].
  destruct (Hline _ _ eq_refl) as [c ->]. cbv zeta.
  destruct (frames stack_str (next_separator separator stack_str))
    as [stack|e] eqn:Hf.
  - destruct (add_stack_int stack root c Hint) as (root' & -> & Hint' & _).
    now apply IH.
  - apply frames_Raise in Hf. destruct Hf as [-> _]. discriminate.
Qed.

Lemma convert_Raise (lines : list string) (separator : string) (e : exn) :
  convert_folded_to_grafana lines separator = Raise e
  <-> build_trie lines separator = Raise e
      \/ exists root, build_trie lines separator = Ok root
                      /\ calculate_totals root = Raise e.
Proof.
  unfold convert_folded_to_grafana, build_and_total.
  destruct (build_trie lines separator) as [root|e1]; simpl.
  - destruct (calculate_totals root) as [root'|e2] eqn:Hc; simpl.
    + split; [discriminate|].
      intros [?|(r & [= <-] & ?)]; [discriminate | congruence].
    + split; [intros [= <-]; right; eauto|].
      intros [?|(r & [= <-] & ?)]; [discriminate | congruence].
  - split; [intros [= <-]; now left|].
    intros [[= ->]|(r & ? & _)]; [reflexivity | discriminate].
Qed.

(** X8: what the conversion can raise.  With a separator that is not
    empty it never raises ValueError.  With the empty separator it raises
    ValueError exactly when the first line that is not skipped is one in
    which no slash is detected.  With counts that are all integers it
    never raises OverflowError. *)
Theorem conversion_errors :
  (forall lines separator,
      separator <> "" ->
      convert_folded_to_grafana lines separator <> Raise ValueError)
  /\ (forall lines,
         convert_folded_to_grafana lines "" = Raise ValueError
         <-> exists pre line post,
               lines = (pre ++ line :: post)%list
               /\ Forall (fun l => parse_line l = None) pre
               /\ parse_line line <> None
               /\ slash_detected line = false)
  /\ (forall lines separator,
         int_counts lines ->
         convert_folded_to_grafana lines separator <> Raise OverflowError).
Proof.
  split; [|split].
  - intros lines separator Hne H. apply convert_Raise in H.
    destruct H as [H|(root & _ & H)].
    + now apply (build_loop_no_ValueError lines (new_node "total") separator).
    + apply calculate_totals_Raise in H. discriminate.
  - intros lines. rewrite convert_Raise.
    rewrite <- (build_loop_ValueError lines (new_node "total")).
    unfold build_trie. split; [|now left].
    intros [H|(root & _ & H)]; [assumption|].
    apply calculate_totals_Raise in H. discriminate.
  - intros lines separator Hc H. apply convert_Raise in H.
    destruct H as [H|(root & Hroot & H)].
    + now apply (build_loop_int_no_Overflow lines (new_node "total") separator).
    + destruct (build_loop_int lines (new_node "total") separator Hc eq_refl)
        as [Hpart _].
      destruct (Hpart root Hroot) as (Hint & _).
      destruct (calculate_totals_int root Hint) as (r & Hr & _). congruence.
Qed.

Lemma conversion_errors_witness :
  convert_folded_to_grafana ["# c"; "x/y 1"; "a 2"] ";" <> Raise ValueError
  /\ convert_folded_to_grafana ["# c"; "a 2"; "x/y 1"] "" = Raise ValueError
  /\ convert_folded_to_grafana ["a 2"; "b 3"] "" <> Raise OverflowError.
Proof.
  split; [|split].
  - apply (proj1 conversion_errors). discriminate.
  - apply (proj1 (proj2 conversion_errors)).
    exists ["# c"], "a 2", ["x/y 1"].
    split; [reflexivity|]. split; [repeat constructor|].
    split; [discriminate | reflexivity].
  - apply (proj2 (proj2 conversion_errors)). vm_compute. repeat constructor.
Defined.

(** ** Lines *)

Lemma rstrip_by_snoc (p : ascii -> bool) (c : ascii) (s : string) :
  p c = true ->
  PyStr.rstrip_by p (s ++ String c EmptyString) = PyStr.rstrip_by p s.
Proof.
  intros Hc. induction s as [|a s IH]; simpl.
  - now rewrite Hc.
  - now rewrite IH.
Qed.

Lemma strip_by_snoc (p : ascii -> bool) (c : ascii) (s : string) :
  p c = true ->
  PyStr.rstrip_by p (PyStr.lstrip_by p (s ++ String c EmptyString))
  = PyStr.rstrip_by p (PyStr.lstrip_by p s).
Proof.
  intros Hc. induction s as [|a s IH]; simpl.
  - now rewrite Hc.
  - destruct (p a); [exact IH|].
    apply (rstrip_by_snoc p c (String a s) Hc).
Qed.

Lemma rstrip_by_idem (p : ascii -> bool) (s : string) :
  PyStr.rstrip_by p (PyStr.rstrip_by p s) = PyStr.rstrip_by p s.
Proof.
  induction s as [|a s IH]; [reflexivity|]. simpl.
  destruct (PyStr.rstrip_by p s) as [|b r] eqn:E.
  - destruct (p a) eqn:Ea; simpl; [reflexivity|]. now rewrite Ea.
  - simpl in *. now rewrite IH.
Qed.

Lemma lstrip_by_head (p : ascii -> bool) (s : string) :
  PyStr.lstrip_by p s = ""
  \/ exists a t, PyStr.lstrip_by p s = String a t /\ p a = false.
Proof.
  induction s as [|a s IH]; simpl; [now left|].
  destruct (p a) eqn:Ea; [exact IH|]. right. eauto.
Qed.

Lemma rstrip_by_head (p : ascii -> bool) (a : ascii) (t : string) :
  p a = false -> exists t', PyStr.rstrip_by p (String a t) = String a t'.
Proof.
  intros Ha. simpl. destruct (PyStr.rstrip_by p t); [|eauto].
  rewrite Ha. eauto.
Qed.

Lemma strip_idem (s : string) : PyStr.strip (PyStr.strip s) = PyStr.strip s.
Proof.
  unfold PyStr.strip.
  destruct (lstrip_by_head PyStr.isspace s) as [->|(a & t & -> & Ha)];
    [reflexivity|].
  destruct (rstrip_by_head PyStr.isspace a t Ha) as [t' E].
  rewrite E at 1. simpl PyStr.lstrip_by. rewrite Ha, <- E.
  apply rstrip_by_idem.
Qed.

Lemma strip_newline (s : string) :
  PyStr.strip (s ++ newline) = PyStr.strip s.
Proof. apply strip_by_snoc. reflexivity. Qed.

Lemma parse_line_strip (l l' : string) :
  PyStr.strip l = PyStr.strip l' -> parse_line l = parse_line l'.
Proof. unfold parse_line. now intros ->. Qed.

Lemma build_loop_map (f : string -> string) (lines : list string) :
  (forall l, PyStr.strip (f l) = PyStr.strip l) ->
  forall root separator,
    build_loop (map f lines) root separator
    = build_loop lines root separator.
Proof.
  intros Hf. induction lines as [|line rest IH]; intros root separator;
    [reflexivity|].
  cbn [map build_loop]. unfold insert_line.
  rewrite (parse_line_strip _ _ (Hf line)).
  destruct (parse_line line) as [[stack_str count]|]; [|apply IH].
  cbv zeta. destruct (frames _ _); [|reflexivity].
  destruct (add_stack _ _ _); [apply IH | reflexivity].
Qed.

(** X9: white space around a line does not count.  A change of the lines
    that leaves every trimmed line as it was leaves the conversion as it
    was; so it is with the end of line that [readlines] keeps on every
    line, and with trimming the lines beforehand. *)
Theorem surrounding_whitespace_ignored :
  (forall f lines separator,
      (forall l, PyStr.strip (f l) = PyStr.strip l) ->
      convert_folded_to_grafana (map f lines) separator
      = convert_folded_to_grafana lines separator)
  /\ (forall lines separator,
         convert_folded_to_grafana (map (fun l => l ++ newline) lines)
                                   separator
         = convert_folded_to_grafana lines separator)
  /\ (forall lines separator,
         convert_folded_to_grafana (map PyStr.strip lines) separator
         = convert_folded_to_grafana lines separator).
Proof.
  assert (H : forall f lines separator,
             (forall l, PyStr.strip (f l) = PyStr.strip l) ->
             convert_folded_to_grafana (map f lines) separator
             = convert_folded_to_grafana lines separator).
  { intros f lines separator Hf.
    unfold convert_folded_to_grafana, build_and_total, build_trie.
    now rewrite build_loop_map. }
  split; [exact H|]. split; intros lines separator; apply H.
  - apply strip_newline.
  - apply strip_idem.
Qed.

Lemma surrounding_whitespace_ignored_witness :
  convert_folded_to_grafana
    (map (fun l => "  " ++ l ++ newline) ["a;b 1"; "# c"; "a 2"]) ";"
  = convert_folded_to_grafana ["a;b 1"; "# c"; "a 2"] ";".
Proof.
  apply (proj1 surrounding_whitespace_ignored
           (fun l => "  " ++ l ++ newline)).
  intros l. unfold PyStr.strip. simpl PyStr.lstrip_by.
  apply strip_newline.
Defined.

(** X10: a line that is not skipped is read at its last space.
    [parse_line] returns a stack part and a count exactly when the trimmed
    line is not empty, does not begin with [#], and is the stack part, a
    space and a token without a space of which the count is the value;
    the value is an [int] whenever [int()] accepts the token, and a
    [float] only when it does not. *)
Theorem parse_line_at_last_space (line stack_str : string) (count : pynum) :
  parse_line line = Some (stack_str, count)
  <-> PyStr.strip line <> ""
      /\ PyStr.startswith (PyStr.strip line) "#" = false
      /\ exists token,
           PyStr.strip line = stack_str ++ String " " token
           /\ ~ In " "%char (chars token)
           /\ match py_int token with
              | Some z => count = PyInt z
              | None => exists f, py_float token = Some f
                                  /\ count = PyFloat f
              end.
Proof.
  unfold parse_line. set (t := PyStr.strip line).
  destruct (PyStr.nonempty t) eqn:Hne; simpl.
  2:{ apply nonempty_false in Hne. split; [discriminate|tauto]. }
  assert (Ht : t <> "") by (intros E; apply nonempty_false in E; congruence).
  destruct (PyStr.startswith t "#") eqn:Hst.
  { split; [discriminate|]. intros (_ & ? & _). discriminate. }
  assert (Hcount : forall token,
    parse_count token = Some count
    <-> match py_int token with
        | Some z => count = PyInt z
        | None => exists f, py_float token = Some f /\ count = PyFloat f
        end).
  { intros token. unfold parse_count.
    destruct (py_int token) as [z|].
    - split; [now intros [= <-] | now intros ->].
    - destruct (py_float token) as [f|].
      + split; [intros [= <-]; eauto | now intros (f' & [= <-] & ->)].
      + split; [discriminate | intros (f' & ? & _); discriminate]. }
  destruct (in_dec ascii_dec " "%char (chars t)) as [Hin|Hout].
  - destruct (last_occurrence _ _ Hin) as (a & b & E & Hb).
    assert (Hr : PyStr.rsplit1 t " " = [a; b])
      by (rewrite E at 1; now apply rsplit1_last).
    rewrite Hr. split.
    + destruct (parse_count b) as [c|] eqn:Hc; [|discriminate].
      intros [= <- <-]. repeat split; auto.
      exists b. split; [assumption|]. split; [assumption|].
      now apply Hcount.
    + intros (_ & _ & token & E' & Htok & Hc).
      assert (Hr' : PyStr.rsplit1 t " " = [stack_str; token])
        by (rewrite E' at 1; now apply rsplit1_last).
      rewrite Hr in Hr'. injection Hr' as -> ->.
      apply Hcount in Hc. now rewrite Hc.
  - rewrite rsplit1_absent by assumption. split; [discriminate|].
    intros (_ & _ & token & E & _). exfalso. apply Hout.
    rewrite E, chars_app. apply in_or_app. right. now left.
Qed.

Lemma parse_line_at_last_space_witness :
  parse_line "  my frame;b 1.5 " = Some ("my frame;b", PyFloat
    (S754_finite false 6755399441055744 (-52))).
Proof.
  apply (proj2 (parse_line_at_last_space _ _ _)).
  split; [discriminate|]. split; [reflexivity|].
  exists "1.5". split; [reflexivity|]. split; [no_space|].
  vm_compute. eexists. split; reflexivity.
Defined.

(** ** The separator from line to line *)

Lemma line_stacks_slash (lines : list string) :
  line_stacks lines "/" = plain_stacks lines "/".
Proof.
  induction lines as [|line rest IH]; [reflexivity|].
  cbn [line_stacks plain_stacks].
  destruct (parse_line line) as [[stack_str count]|]; [|exact IH].
  cbv zeta.
  assert (E : next_separator "/" stack_str = "/")
    by (unfold next_separator; now destruct (_ && _)).
  now rewrite E, IH.
Qed.

Lemma line_stacks_plain (lines : list string) (separator : string) :
  separator = "/" \/ Forall (fun l => slash_detected l = false) lines ->
  line_stacks lines separator = plain_stacks lines separator.
Proof.
  intros [->|H]; [apply line_stacks_slash|].
  induction H as [|line rest Hd _ IH]; [reflexivity|].
  cbn [line_stacks plain_stacks]. unfold slash_detected in Hd.
  destruct (parse_line line) as [[stack_str count]|]; [|exact IH].
  cbv zeta. unfold next_separator. now rewrite Hd, IH.
Qed.

Lemma line_stacks_app (l1 l2 : list string) :
  forall separator,
    line_stacks (l1 ++ l2) separator
    = (tr1 <- line_stacks l1 separator ;;
       tr2 <- line_stacks l2 (last_separator l1 separator) ;;
       Ok (tr1 ++ tr2)%list).
Proof.
  induction l1 as [|line rest IH]; intros separator.
  - cbn [app line_stacks last_separator bind].
    now destruct (line_stacks l2 separator).
  - cbn [app line_stacks last_separator].
    destruct (parse_line line) as [[stack_str count]|]; [|apply IH].
    cbv zeta. destruct (frames _ _) as [stack|]; [|reflexivity].
    cbn [bind]. rewrite IH.
    destruct (line_stacks rest _) as [tr1|]; [|reflexivity].
    cbn [bind]. now destruct (line_stacks l2 _).
Qed.

Lemma last_separator_detected (pre : list string) (line : string) :
  slash_detected line = true ->
  forall separator, last_separator (pre ++ [line]) separator = "/".
Proof.
  intros Hd. induction pre as [|l pre IH]; intros separator.
  - cbn [app last_separator]. unfold slash_detected in Hd.
    destruct (parse_line line) as [[stack_str count]|]; [|discriminate].
    unfold next_separator. now rewrite Hd.
  - cbn [app last_separator].
    destruct (parse_line l) as [[stack_str count]|]; apply IH.
Qed.

(** X11: how the lines are split.  When the configured separator is the
    slash, or no line has a slash detected, every line is split at the
    configured separator.  From the first line in which a slash is
    detected on, every line is split at the slash, whatever the configured
    separator and whatever the line holds. *)
Theorem separator_from_line_to_line :
  (forall lines separator,
      separator = "/" \/ Forall (fun l => slash_detected l = false) lines ->
      line_stacks lines separator = plain_stacks lines separator)
  /\ (forall pre line post separator,
         slash_detected line = true ->
         line_stacks (pre ++ line :: post) separator
         = (tr1 <- line_stacks (pre ++ [line]) separator ;;
            tr2 <- plain_stacks post "/" ;;
            Ok (tr1 ++ tr2)%list)).
Proof.
  split; [apply line_stacks_plain|].
  intros pre line post separator Hd.
  change (line :: post) with ([line] ++ post)%list.
  rewrite app_assoc, line_stacks_app.
  now rewrite (last_separator_detected pre line Hd), line_stacks_slash.
Qed.

Lemma separator_from_line_to_line_witness :
  line_stacks ["a;b 1"; "c;d 2"] ";" = plain_stacks ["a;b 1"; "c;d 2"] ";"
  /\ line_stacks (["a;b 1"] ++ "x/y 2" :: ["c;d 3"]) ";"
     = (tr1 <- line_stacks (["a;b 1"] ++ ["x/y 2"]) ";" ;;
        tr2 <- plain_stacks ["c;d 3"] "/" ;;
        Ok (tr1 ++ tr2)%list).
Proof.
  split.
  - apply (proj1 separator_from_line_to_line). right.
    repeat constructor.
  - apply (proj2 separator_from_line_to_line). reflexivity.
Defined.

(** ** The order of the lines *)

Lemma plain_stacks_perm (lines lines' : list string) (separator : string) :
  Permutation lines lines' ->
  forall tr,
    plain_stacks lines separator = Ok tr ->
    exists tr', plain_stacks lines' separator = Ok tr' /\ Permutation tr tr'.
Proof.
  induction 1 as [|x l l' Hp IH|x y l|l l' l'' _ IH1 _ IH2]; intros tr H.
  - exists tr. auto.
  - cbn [plain_stacks] in *.
    destruct (parse_line x) as [[stack_str count]|]; [|now apply IH].
    destruct (frames stack_str separator) as [stack|]; [|discriminate].
    cbn [bind] in *.
    destruct (plain_stacks l separator) as [tr0|]; [|discriminate].
    injection H as <-. destruct (IH _ eq_refl) as (tr' & -> & Hperm).
    cbn [bind]. eexists. split; [reflexivity|]. now constructor.
  - cbn [plain_stacks] in *.
    destruct (parse_line y) as [[sy cy]|], (parse_line x) as [[sx cx]|];
      try (exists tr; split; [exact H | reflexivity]).
    destruct (frames sy separator) as [ky|]; [|discriminate].
    cbn [bind] in H.
    destruct (frames sx separator) as [kx|]; [|discriminate].
    cbn [bind] in *.
    destruct (plain_stacks l separator) as [tr0|]; [|discriminate].
    cbn [bind] in *. injection H as <-.
    eexists. split; [reflexivity|]. apply perm_swap.
  - destruct (IH1 _ H) as (tr' & H' & P1).
    destruct (IH2 _ H') as (tr'' & H'' & P2).
    exists tr''. split; [assumption|]. now transitivity tr'.
Qed.

Lemma entry_sum_perm (f : list string * pynum -> bool)
  (tr tr' : list (list string * pynum)) :
  Permutation tr tr' ->
  zsum (map int_of (map snd (filter f tr)))
  = zsum (map int_of (map snd (filter f tr'))).
Proof.
  unfold zsum.
  induction 1 as [|x l l' _ IH|x y l|l l' l'' _ IH1 _ IH2]; simpl.
  - reflexivity.
  - destruct (f x); simpl; lia.
  - destruct (f x), (f y); simpl; lia.
  - congruence.
Qed.

Lemma line_stacks_counts (lines : list string) :
  forall separator tr,
    line_stacks lines separator = Ok tr -> map snd tr = counts lines.
Proof.
  induction lines as [|line rest IH]; intros separator tr H.
  - now injection H as <-.
  - rewrite counts_cons. cbn [line_stacks] in H.
    destruct (parse_line line) as [[stack_str count]|]; [|eauto].
    cbv zeta in H. inv_bind H. inv_bind H. injection H as <-.
    cbn [map snd app]. f_equal. eauto.
Qed.

Lemma int_list (l : list pynum) :
  Forall (fun c => is_int c = true) l -> l = map PyInt (map int_of l).
Proof.
  induction 1 as [|[z|f] l Hx _ IH]; simpl; [reflexivity| |discriminate].
  now rewrite <- IH.
Qed.

Lemma Forall_filter_snd (f : list string * pynum -> bool)
  (tr : list (list string * pynum)) :
  Forall (fun c => is_int c = true) (map snd tr) ->
  Forall (fun c => is_int c = true) (map snd (filter f tr)).
Proof.
  rewrite !Forall_forall. intros H c Hc. apply H.
  apply in_map_iff in Hc. destruct Hc as (sc & <- & Hin).
  apply filter_In in Hin. apply in_map. tauto.
Qed.

(** With counts that are integers: the nodes, the self values and the
    totals of the tree of a conversion, read off the stacks of the
    lines. *)
Lemma int_tree_contents (lines : list string) (separator : string)
  (root : TrieNode) :
  int_counts lines ->
  build_and_total lines separator = Ok root ->
  exists tr,
    line_stacks lines separator = Ok tr
    /\ forall p,
         (find_node root p <> None
          <-> p = []
              \/ exists stack c, In (stack, c) tr /\ is_prefix p stack = true)
         /\ self_at root p = PyInt (zsum (map int_of (counts_at p tr)))
         /\ (find_node root p <> None ->
             total_at root p = PyInt (zsum (map int_of (counts_under p tr)))).
Proof.
  intros Hc H. unfold build_and_total in H. inv_bind H. rename a into r.
  unfold build_trie in Ha.
  destruct (build_loop_int lines (new_node "total") separator Hc eq_refl)
    as [Hpart _].
  destruct (Hpart r Ha) as (Hint & _ & _).
  destruct (build_loop_subtree_sums lines (new_node "total") _ _ Hc eq_refl Ha)
    as (tr & Htr & Hsum).
  destruct (build_loop_nodes lines (new_node "total") separator r Ha)
    as (tr1 & Htr1 & Hn).
  destruct (build_loop_stacks lines (new_node "total") separator r Ha)
    as (tr2 & Htr2 & Hs).
  assert (tr1 = tr) by congruence. assert (tr2 = tr) by congruence.
  subst tr1 tr2.
  exists tr. split; [assumption|].
  intros p. split; [|split].
  - specialize (Hn p). rewrite find_node_new_node in Hn.
    assert (Hn' : find_node r p <> None
                  <-> p = []
                      \/ exists stack c,
                           In (stack, c) tr /\ is_prefix p stack = true)
      by tauto.
    rewrite <- Hn'.
    pose proof (find_node_totals p r root H) as Hf.
    destruct (find_node r p), (find_node root p); try contradiction;
      split; congruence.
  - assert (Hself : self_at root p = self_at r p).
    { pose proof (find_node_totals p r root H) as Hf. unfold self_at.
      destruct (find_node r p) as [m|], (find_node root p) as [m'|];
        try contradiction; [|reflexivity].
      now destruct (calculate_totals_self _ _ Hf). }
    rewrite Hself. specialize (Hs p). rewrite self_at_new_node in Hs.
    assert (Hints : Forall (fun c => is_int c = true) (counts_at p tr)).
    { apply Forall_filter_snd. rewrite (line_stacks_counts _ _ _ Htr).
      exact Hc. }
    rewrite (int_list _ Hints) in Hs.
    rewrite add_all_int in Hs. now injection Hs as <-.
  - intros Hnode. unfold total_at.
    destruct (find_node root p) as [n|] eqn:Hn'; [|congruence].
    rewrite (total_of_subtree r root Hint H p n Hn'), Hsum.
    now rewrite subtree_sum_new_node.
Qed.

(** X12: the counts do not depend on the order of the lines.  When every
    count is an integer and every line is split at the configured
    separator (it is the slash, or no line has a slash detected), the
    trees of two inputs that hold the same lines in a different order have
    a node at the same paths, with the same self value and the same total;
    only the order of the children can differ. *)
Theorem counts_do_not_depend_on_order (lines lines' : list string)
  (separator : string) (root root' : TrieNode) :
  Permutation lines lines' ->
  int_counts lines ->
  separator = "/" \/ Forall (fun l => slash_detected l = false) lines ->
  build_and_total lines separator = Ok root ->
  build_and_total lines' separator = Ok root' ->
  forall p,
    (find_node root p <> None <-> find_node root' p <> None)
    /\ self_at root p = self_at root' p
    /\ total_at root p = total_at root' p.
Proof.
  intros Hperm Hc Hsep H H'.
  assert (Hc' : int_counts lines').
  { unfold int_counts, counts in *.
    now rewrite <- (Permutation_flat_map _ Hperm). }
  assert (Hsep' : separator = "/"
                  \/ Forall (fun l => slash_detected l = false) lines').
  { destruct Hsep as [?|Hd]; [now left | right].
    now rewrite <- Hperm. }
  destruct (int_tree_contents _ _ _ Hc H) as (tr & Htr & Hf).
  destruct (int_tree_contents _ _ _ Hc' H') as (tr' & Htr' & Hf').
  rewrite line_stacks_plain in Htr, Htr' by assumption.
  destruct (plain_stacks_perm _ _ _ Hperm _ Htr) as (tr'' & Htr'' & Ptr).
  assert (tr'' = tr') by congruence. subst tr''.
  intros p. destruct (Hf p) as (Hn & Hs & Ht).
  destruct (Hf' p) as (Hn' & Hs' & Ht').
  assert (Hnodes : find_node root p <> None <-> find_node root' p <> None).
  { rewrite Hn, Hn'. split; (intros [?|(s & c & Hin & Hp)]; [now left|]);
      right; exists s, c; split; auto.
    - now apply (Permutation_in _ Ptr).
    - now apply (Permutation_in _ (Permutation_sym Ptr)). }
  split; [exact Hnodes|]. split.
  - rewrite Hs, Hs'. unfold counts_at. f_equal. now apply entry_sum_perm.
  - destruct (find_node root p) as [n|] eqn:E.
    + assert (Hnn : Some n <> None) by discriminate.
      rewrite (Ht Hnn), (Ht' (proj1 Hnodes Hnn)). unfold counts_under.
      f_equal. now apply entry_sum_perm.
    + assert (E' : find_node root' p = None).
      { destruct (find_node root' p) eqn:E'; [|reflexivity].
        exfalso. apply (proj2 Hnodes); congruence. }
      unfold total_at. now rewrite E, E'.
Qed.

Lemma counts_do_not_depend_on_order_witness :
  exists root root',
    build_and_total (["a;b 1"; "c 2"] ++ ["a 3"]) ";" = Ok root
    /\ build_and_total ("a 3" :: ["a;b 1"; "c 2"]) ";" = Ok root'
    /\ forall p,
         (find_node root p <> None <-> find_node root' p <> None)
         /\ self_at root p = self_at root' p
         /\ total_at root p = total_at root' p.
Proof.
  eexists. eexists. split; [reflexivity|]. split; [reflexivity|].
  apply (counts_do_not_depend_on_order
           (["a;b 1"; "c 2"] ++ ["a 3"]) ("a 3" :: ["a;b 1"; "c 2"]) ";").
  - apply Permutation_sym, Permutation_cons_append.
  - vm_compute. repeat constructor.
  - right. repeat constructor.
  - reflexivity.
  - reflexivity.
Defined.

(** ** The lines of [output_csv] *)

Lemma plain_app (a b : string) : plain (a ++ b) = plain a && plain b.
Proof.
  induction a as [|c a IH]; simpl; [reflexivity|].
  rewrite IH. now rewrite andb_assoc.
Qed.

Lemma plain_uint (d : Decimal.uint) :
  plain (NilEmpty.string_of_uint d) = true.
Proof. induction d; simpl; auto. Qed.

Lemma plain_str_int (z : Z) : plain (PyFmt.str_int z) = true.
Proof.
  unfold PyFmt.str_int, NilZero.string_of_int, NilZero.string_of_uint.
  destruct (Z.to_int z) as [d|d]; destruct d; simpl;
    try reflexivity; apply plain_uint.
Qed.

Lemma plain_zeros (n : nat) : plain (PyFmt.zeros n) = true.
Proof. induction n; simpl; auto. Qed.

Lemma plain_rstrip_by (p : ascii -> bool) (s : string) :
  plain s = true -> plain (PyStr.rstrip_by p s) = true.
Proof.
  induction s as [|c s IH]; simpl; [reflexivity|].
  intros H. apply andb_true_iff in H. destruct H as [Hc Hs].
  specialize (IH Hs).
  destruct (PyStr.rstrip_by p s) as [|c' s'] eqn:E.
  - destruct (p c); simpl; [reflexivity | now rewrite Hc].
  - cbn [plain]. cbn [plain] in IH. now rewrite Hc, IH.
Qed.

Lemma plain_substring (s : string) :
  forall n m, plain s = true -> plain (substring n m s) = true.
Proof.
  induction s as [|c s IH]; intros n m H.
  - destruct n, m; reflexivity.
  - simpl in H. apply andb_true_iff in H. destruct H as [Hc Hs].
    destruct n as [|n]; simpl.
    + destruct m as [|m]; simpl; [reflexivity|].
      now rewrite Hc, IH.
    + now apply IH.
Qed.

Lemma plain_pad2 (s : string) : plain s = true -> plain (PyFmt.pad2 s) = true.
Proof.
  intros H. destruct s as [|c [|c' s]]; simpl in *; assumption.
Qed.

Lemma plain_repr_finite (s : bool) (m : positive) (e : Z) :
  plain (PyFmt.repr_finite s m e) = true.
Proof.
  unfold PyFmt.repr_finite.
  destruct (PyFmt.shortest _ _ _ _ _ _ _) as [d k]. cbv zeta.
  set (ds := PyStr.rstrip_by PyFmt.is_zero (PyFmt.str_int d)).
  assert (Hds : plain ds = true)
    by apply plain_rstrip_by, plain_str_int.
  rewrite plain_app. apply andb_true_iff. split; [now destruct s|].
  destruct (_ || _).
  - rewrite !plain_app. rewrite plain_pad2 by apply plain_str_int.
    assert (Hm : plain match ds with
                       | String c EmptyString => ds
                       | String c rest => String c ("." ++ rest)
                       | EmptyString => EmptyString
                       end = true).
    { destruct ds as [|c [|c' r]]; simpl in *; try assumption. }
    rewrite Hm. now destruct (_ <? 0).
  - destruct (_ <=? 0).
    + now rewrite !plain_app, plain_zeros, Hds.
    + destruct (_ <=? _).
      * now rewrite !plain_app, plain_zeros, Hds.
      * rewrite !plain_app, !plain_substring by assumption. reflexivity.
Qed.

Lemma plain_py_str (a : pynum) : plain (PyFmt.py_str a) = true.
Proof.
  destruct a as [z|f]; simpl; [apply plain_str_int|].
  destruct f as [s| [|] | | s m e]; try reflexivity.
  - now destruct s.
  - apply plain_repr_finite.
Qed.

(** *** The reader on what [output_csv] writes *)

Lemma append_nil_r (s : string) : s ++ "" = s.
Proof. induction s as [|c s IH]; simpl; [reflexivity | now rewrite IH]. Qed.

Lemma append_assoc (a b c : string) : (a ++ b) ++ c = a ++ (b ++ c).
Proof. induction a as [|x a IH]; simpl; [reflexivity | now rewrite IH]. Qed.

Lemma csv_read_in_plain (p rest : string) :
  forall cur,
    plain p = true ->
    csv_read (p ++ String "," rest) InPlain cur
    = emit (cur ++ p) (csv_read rest FieldStart EmptyString).
Proof.
  induction p as [|c p IH]; intros cur H.
  - simpl. now rewrite append_nil_r.
  - simpl in H. apply andb_true_iff in H. destruct H as [Hc Hp].
    apply andb_true_iff in Hc. destruct Hc as [Hcomma Hquote].
    apply negb_true_iff in Hcomma, Hquote.
    cbn [append csv_read]. rewrite Hcomma, Hquote, IH by assumption.
    now rewrite append_assoc.
Qed.

Lemma csv_read_plain (p rest : string) :
  plain p = true ->
  csv_read (p ++ "," ++ rest) FieldStart EmptyString
  = emit p (csv_read rest FieldStart EmptyString).
Proof.
  change ("," ++ rest) with (String "," rest).
  destruct p as [|c p]; intros H; [reflexivity|].
  simpl in H. apply andb_true_iff in H. destruct H as [Hc Hp].
  apply andb_true_iff in Hc. destruct Hc as [Hcomma Hquote].
  apply negb_true_iff in Hcomma, Hquote.
  cbn [append csv_read]. rewrite Hcomma, Hquote.
  now rewrite csv_read_in_plain.
Qed.

(** Every double quote is written twice, and nothing else is changed. *)
Lemma replace_quote (c : ascii) (s : string) :
  PyFmt.replace_loop PyFmt.quote (PyFmt.quote ++ PyFmt.quote) (String c s) 0
  = if is_quote c
    then String "034" (String "034"
           (PyFmt.replace_loop PyFmt.quote (PyFmt.quote ++ PyFmt.quote) s 0))
    else String c
           (PyFmt.replace_loop PyFmt.quote (PyFmt.quote ++ PyFmt.quote) s 0).
Proof.
  cbn [PyFmt.replace_loop].
  change (String.prefix PyFmt.quote (String c s))
    with (if ascii_dec "034" c then String.prefix EmptyString s else false).
  unfold is_quote.
  destruct (ascii_dec "034" c) as [<-|Hne].
  - destruct s; reflexivity.
  - destruct (Ascii.eqb_spec c "034") as [->|_]; [now elim Hne | reflexivity].
Qed.

Lemma csv_read_quoted (l : string) :
  forall cur,
    csv_read (PyFmt.replace l PyFmt.quote (PyFmt.quote ++ PyFmt.quote)
              ++ PyFmt.quote) InQuoted cur
    = Some [cur ++ l].
Proof.
  change (PyFmt.replace l PyFmt.quote (PyFmt.quote ++ PyFmt.quote))
    with (PyFmt.replace_loop PyFmt.quote (PyFmt.quote ++ PyFmt.quote) l 0).
  induction l as [|c l IH]; intros cur.
  - simpl. now rewrite append_nil_r.
  - rewrite replace_quote. destruct (is_quote c) eqn:Hq.
    + cbn [append csv_read]. change (is_quote "034") with true. cbv iota.
      rewrite IH. unfold is_quote in Hq. apply Ascii.eqb_eq in Hq. subst c.
      unfold PyFmt.quote. now rewrite append_assoc.
    + cbn [append csv_read]. rewrite Hq, IH. now rewrite append_assoc.
Qed.

(** X13: what [output_csv] prints can be read back.  The first line is the
    header, and the line of every row, read as comma separated values
    with quoted fields (RFC 4180), has exactly four fields: [str] of the
    level, of the value and of the self count, and the label as it is,
    whatever characters it holds: commas, double quotes, line ends. *)
Theorem output_csv_reads_back (data : list Row) :
  map csv_fields (output_csv data)
  = Some ["level"; "value"; "self"; "label"]
    :: map (fun row =>
              Some [PyFmt.str_int (Z.of_nat (level row));
                    PyFmt.py_str (value row);
                    PyFmt.py_str (self row);
                    label row]) data.
Proof.
  unfold output_csv. cbn [map]. f_equal. rewrite map_map.
  apply map_ext. intros row. unfold csv_fields, csv_line. cbv zeta.
  rewrite csv_read_plain by apply plain_str_int.
  rewrite csv_read_plain by apply plain_py_str.
  rewrite csv_read_plain by apply plain_py_str.
  unfold PyFmt.quote at 1. cbn [append csv_read].
  change (is_quote "034") with true. cbv iota.
  now rewrite csv_read_quoted.
Qed.
